(** * UNSW-NB15 cleaning pipeline: a shallow embedding of
      [unsw_nb15-preprocessing/clean_unsw_nb15.py]

    The script reads headerless CSV parts in chunks, maps every chunk onto an
    18-column schema ([map_unsw_to_standard]) and appends it to one gzip file
    ([main]).  The embedding keeps the shape of the Python code:

    - a pandas [Series] is a column with a dtype: [int64], [float64] (NaN is
      the null), the nullable ["Int64"] extension type (pd.NA is the null) or
      [object] (Python strings and missing markers);
    - [float64] values are IEEE binary64 numbers, taken from the executable
      specification [SpecFloat] of the standard library;
    - a [DataFrame] is an ordered list of named columns over an index;
    - exceptions are an error monad; the in-place updates of
      [unify_label_attack] are explicit: the mapper returns the output batch
      together with the input batch as it is left behind;
    - the driver threads a file system through the run.

    pandas semantics follow the 2.x series ([astype(str)] renders a missing
    value as text, which is why the script itself replaces ["nan"] by
    ["benign"]; the cast of a float64 column to ["Int64"] raises
    [OverflowError] on an infinity, which [errors="ignore"] does not
    cover).  Strings are ASCII text.  The integers of a batch are int64:
    the text of an integer beyond that range, which pandas reads as
    uint64, is left out.  The file system has directories and regular
    files, no links. *)

From Stdlib Require Import ZArith List String Ascii Bool Lia.
From Stdlib Require Import Floats.SpecFloat.
From Stdlib Require Import Numbers.DecimalString.
From Stdlib Require Import Sorting.Sorted Sorting.Permutation.
Import ListNotations.

Local Open Scope string_scope.
Local Open Scope list_scope.

(** ** Exceptions *)

Inductive exn : Type :=
| TypeError
| ValueError
| KeyError
| IntCastingNaNError
| OverflowError
| OSError
| SystemExit (msg : string).

Inductive result (A : Type) : Type :=
| Ok (a : A)
| Raise (e : exn).

Arguments Ok {A} a.
Arguments Raise {A} e.

Definition bind {A B : Type} (r : result A) (k : A -> result B) : result B :=
  match r with
  | Ok a => k a
  | Raise e => Raise e
  end.

Notation "x <- c ;; k" := (bind c (fun x => k))
  (at level 61, c at next level, right associativity).

(** ** binary64 *)

Module F64.

Definition prec : Z := 53.
Definition emax : Z := 1024.

Definition nan : spec_float := S754_nan.
Definition zero : spec_float := S754_zero false.

Definition add : spec_float -> spec_float -> spec_float := SFadd prec emax.

(** Conversion of an integer, rounding to nearest even. *)
Definition of_Z (z : Z) : spec_float := binary_normalize prec emax z 0 false.

Definition is_nan (f : spec_float) : bool :=
  match f with S754_nan => true | _ => false end.

Definition is_finite (f : spec_float) : bool :=
  match f with S754_zero _ | S754_finite _ _ _ => true | _ => false end.

(** [f < 0]; false on NaN, as every IEEE comparison. *)
Definition ltb0 (f : spec_float) : bool := SFltb f zero.

(** [f >= 0]; false on NaN. *)
Definition geb0 (f : spec_float) : bool := SFleb zero f.

Definition eqb : spec_float -> spec_float -> bool := SFeqb.

(** Truncation toward zero of a finite value. *)
Definition trunc (f : spec_float) : Z :=
  match f with
  | S754_finite s m e =>
      cond_Zopp s (match e with
                   | Zneg p => Z.shiftr (Zpos m) (Zpos p)
                   | _ => Z.shiftl (Zpos m) e
                   end)
  | _ => 0%Z
  end.

End F64.

Definition int64_min : Z := (- 2 ^ 63)%Z.
Definition int64_max : Z := (2 ^ 63 - 1)%Z.

Definition in_int64 (z : Z) : bool :=
  (int64_min <=? z)%Z && (z <=? int64_max)%Z.

(** An int64 value: an integer within the range. *)
Record int64 : Type := mk_int64 {
  to_Z : Z;
  to_Z_range : in_int64 to_Z = true
}.

Definition int64_of_Z (z : Z) : option int64 :=
  (if in_int64 z as b return (in_int64 z = b -> option int64)
   then fun H => Some (mk_int64 z H)
   else fun _ => None) eq_refl.

(** ** Python strings (ASCII) *)

(** [str.isspace] on ASCII: tab .. carriage return, the four separators
    0x1c .. 0x1f and the space. *)
Definition is_space (c : ascii) : bool :=
  let n := nat_of_ascii c in
  ((9 <=? n) && (n <=? 13) || (28 <=? n) && (n <=? 32))%nat.

Definition lower_char (c : ascii) : ascii :=
  let n := nat_of_ascii c in
  if ((65 <=? n) && (n <=? 90))%nat then ascii_of_nat (n + 32) else c.

(** [str.lower] *)
Fixpoint lower (s : string) : string :=
  match s with
  | EmptyString => EmptyString
  | String c s' => String (lower_char c) (lower s')
  end.

Fixpoint lstrip (s : string) : string :=
  match s with
  | EmptyString => EmptyString
  | String c s' => if is_space c then lstrip s' else s
  end.

Fixpoint rstrip (s : string) : string :=
  match s with
  | EmptyString => EmptyString
  | String c s' =>
      match rstrip s' with
      | EmptyString => if is_space c then EmptyString else String c EmptyString
      | r => String c r
      end
  end.

(** [str.strip] *)
Definition strip (s : string) : string := rstrip (lstrip s).

(** [needle in s] *)
Fixpoint contains (needle s : string) : bool :=
  prefix needle s ||
  match s with
  | EmptyString => false
  | String _ s' => contains needle s'
  end.

(** [str(z)] for a Python int *)
Definition str_of_Z (z : Z) : string := NilZero.string_of_int (Z.to_int z).

(** ** Columns *)

(** A Python object held by an object-dtype column: a string, the float NaN
    that [read_csv] leaves for a missing field, or [pd.NA]. *)
Inductive obj : Type :=
| OStr (s : string)
| ONaN
| ONA.

(** The numeric columns.  The integers of an int64 or "Int64" column lie in
    the int64 range ([int64_frame] below says so of a batch). *)
Inductive numcol : Type :=
| Int64Col (l : list Z)
| Float64Col (l : list spec_float)
| NullableInt64Col (l : list (option Z)).

Inductive series : Type :=
| Num (c : numcol)
| Obj (l : list obj).

Definition numcol_len (c : numcol) : nat :=
  match c with
  | Int64Col l => List.length l
  | Float64Col l => List.length l
  | NullableInt64Col l => List.length l
  end.

Definition series_len (s : series) : nat :=
  match s with
  | Num c => numcol_len c
  | Obj l => List.length l
  end.

(** ** Frames *)

(** [index] is the number of rows; the columns keep their order, which is the
    order of the fields in the CSV output. *)
Record frame : Type := DataFrame_of {
  index : nat;
  columns : list (string * series)
}.

Fixpoint lookup (c : string) (cols : list (string * series)) : option series :=
  match cols with
  | [] => None
  | (k, v) :: rest => if String.eqb k c then Some v else lookup c rest
  end.

(** [df.get(c)]: [None] when the column is absent (the caller supplies the
    default). *)
Definition get (df : frame) (c : string) : option series :=
  lookup c (columns df).

Fixpoint assign (c : string) (v : series) (cols : list (string * series))
  : list (string * series) :=
  match cols with
  | [] => [(c, v)]
  | (k, w) :: rest =>
      if String.eqb k c then (k, v) :: rest else (k, w) :: assign c v rest
  end.

(** [df[c] = v]: replaces the column in place, or appends a new last one. *)
Definition setitem (df : frame) (c : string) (v : series) : frame :=
  DataFrame_of (index df) (assign c v (columns df)).

(** [pd.DataFrame(index=idx, columns=names)]: every cell is NaN. *)
Definition DataFrame (idx : nat) (names : list string) : frame :=
  DataFrame_of idx (map (fun c => (c, Obj (repeat ONaN idx))) names).

Definition wf_frame (df : frame) : Prop :=
  Forall (fun kv => series_len (snd kv) = index df) (columns df).

(** [df[c]]: [KeyError] when the column is absent. *)
Definition getitem (df : frame) (c : string) : result series :=
  match get df c with
  | Some s => Ok s
  | None => Raise KeyError
  end.

(** [df.get(c, default)] with a Series as default. *)
Definition get_or (df : frame) (c : string) (default : series) : series :=
  match get df c with
  | Some s => s
  | None => default
  end.

(** ** The constants of the script *)

(** Canonical UNSW-NB15 header (49 columns) -- the comment of the script. *)
Definition UNSW_HEADER : list string :=
  [ "srcip"; "sport"; "dstip"; "dsport"; "proto"; "state"; "dur";
    "sbytes"; "dbytes"; "sttl"; "dttl"; "sload"; "dload"; "spkts"; "dpkts";
    "swin"; "dwin"; "stcpb"; "dtcpb"; "smeansz"; "dmeansz"; "trans_depth";
    "response_body_len"; "sjit"; "djit"; "stime"; "ltime"; "sintpkt"; "dintpkt";
    "tcprtt"; "synack"; "ackdat"; "is_sm_ips_ports"; "ct_state_ttl";
    "ct_flw_http_mthd"; "is_ftp_login"; "ct_ftp_cmd"; "ct_srv_src"; "ct_srv_dst";
    "ct_dst_ltm"; "ct_src_ltm"; "ct_src_dport_ltm"; "ct_dst_sport_ltm";
    "ct_dst_src_ltm"; "attack_cat"; "label" ].

Definition STANDARD_COLS : list string :=
  [ "timestamp"; "src_ip"; "src_port"; "dst_ip"; "dst_port"; "proto";
    "duration"; "bytes_out"; "bytes_in"; "pkts_out"; "pkts_in";
    "flow_bytes_total"; "flow_pkts_total"; "state"; "service";
    "label"; "attack_cat"; "dataset" ].

(** The columns of the loop that removes impossible negatives. *)
Definition NONNEG_COLS : list string :=
  [ "duration"; "bytes_out"; "bytes_in"; "pkts_out"; "pkts_in";
    "flow_bytes_total"; "flow_pkts_total" ].

(** ** pandas operations used by the script *)

(** What the numeric parser of pandas makes of one string: an int64 or a
    float.  The text of an integer beyond the int64 range, which pandas
    reads as uint64, is outside the model. *)
Inductive number : Type :=
| NInt (i : int64)
| NFloat (f : spec_float).

Inductive dtype : Type :=
| Dfloat      (* float *)
| DInt64.     (* "Int64" *)

Fixpoint all_some {A : Type} (l : list (option A)) : option (list A) :=
  match l with
  | [] => Some []
  | Some a :: r => option_map (cons a) (all_some r)
  | None :: _ => None
  end.

Fixpoint zip_with {A B C : Type} (f : A -> B -> C) (l1 : list A) (l2 : list B)
  : list C :=
  match l1, l2 with
  | a :: r1, b :: r2 => f a b :: zip_with f r1 r2
  | _, _ => []
  end.

(** A [.str] method: applies to strings, anything else becomes NaN. *)
Definition str_method (f : string -> string) (l : list obj) : list obj :=
  map (fun o => match o with OStr s => OStr (f s) | _ => ONaN end) l.

(** [Series.replace(d)] for a dict of strings: whole values only. *)
Fixpoint replace_str (d : list (string * string)) (s : string) : string :=
  match d with
  | [] => s
  | (k, v) :: r => if String.eqb s k then v else replace_str r s
  end.

Definition replace (d : list (string * string)) (l : list obj) : list obj :=
  map (fun o => match o with OStr s => OStr (replace_str d s) | _ => o end) l.

(** [Series.fillna(v)] on an object column. *)
Definition fillna_obj (v : obj) (l : list obj) : list obj :=
  map (fun o => match o with OStr s => o | _ => v end) l.

(** [np.where(cond, a, b)] with two scalars. *)
Definition np_where {A : Type} (cond : list bool) (a b : A) : list A :=
  map (fun c : bool => if c then a else b) cond.

Section Pipeline.

(** Three things the libraries do that are not modelled further: the
    grammar of the numeric parser behind [pd.to_numeric] ([None]: not a
    number), Python's [repr] of a finite float, and the int64 NumPy's cast
    gives when the float does not fit (left to the platform). *)
Variable str_to_num : string -> option number.
Variable repr_finite : spec_float -> string.
Variable cast_overflow : spec_float -> int64.

(** [str(f)] *)
Definition str_of_float (f : spec_float) : string :=
  match f with
  | S754_nan => "nan"
  | S754_infinity false => "inf"
  | S754_infinity true => "-inf"
  | _ => repr_finite f
  end.

(** One object under [pd.to_numeric(..., errors="coerce")]. *)
Definition obj_to_num (o : obj) : number :=
  match o with
  | OStr s =>
      match str_to_num s with
      | Some n => n
      | None => NFloat F64.nan
      end
  | ONaN | ONA => NFloat F64.nan
  end.

Fixpoint all_ints (ns : list number) : option (list Z) :=
  match ns with
  | [] => Some []
  | NInt i :: r => option_map (cons (to_Z i)) (all_ints r)
  | NFloat _ :: _ => None
  end.

Definition num_float (n : number) : spec_float :=
  match n with
  | NInt i => F64.of_Z (to_Z i)
  | NFloat f => f
  end.

(** [pd.to_numeric(s, errors="coerce")]: a numeric column is returned as it
    is; an object column becomes int64 when every value parses as an
    integer and float64 (NaN for what does not parse) otherwise. *)
Definition to_numeric (s : series) : numcol :=
  match s with
  | Num c => c
  | Obj l =>
      let ns := map obj_to_num l in
      match all_ints ns with
      | Some zs => Int64Col zs
      | None => Float64Col (map num_float ns)
      end
  end.

(** [.astype(float)] on a numeric column. *)
Definition astype_float (c : numcol) : list spec_float :=
  match c with
  | Int64Col l => map F64.of_Z l
  | Float64Col l => l
  | NullableInt64Col l =>
      map (fun o => match o with Some z => F64.of_Z z | None => F64.nan end) l
  end.

(** NumPy's cast of one float64 to int64. *)
Definition float_to_int64 (f : spec_float) : Z :=
  if F64.is_finite f && in_int64 (F64.trunc f) then F64.trunc f
  else to_Z (cast_overflow f).

(** One value under the cast float64 -> "Int64": NaN becomes pd.NA, any
    other value has to survive the round trip through int64, or the cast of
    the whole column is refused ([None]). *)
Definition safe_cast (f : spec_float) : option (option Z) :=
  if F64.is_nan f then Some None
  else
    let z := float_to_int64 f in
    if F64.eqb (F64.of_Z z) f then Some (Some z) else None.

(** [np.nanmax]: the largest value that is not NaN, if there is one. *)
Fixpoint nanmax_from (m : spec_float) (l : list spec_float) : spec_float :=
  match l with
  | [] => m
  | x :: r =>
      nanmax_from (if F64.is_nan x then m else if SFltb m x then x else m) r
  end.

Fixpoint nanmax (l : list spec_float) : option spec_float :=
  match l with
  | [] => None
  | x :: r => if F64.is_nan x then nanmax r else Some (nanmax_from x r)
  end.

(** [int(f) == f] for a finite float. *)
Definition is_integral (f : spec_float) : bool :=
  F64.eqb (F64.of_Z (F64.trunc f)) f.

(** Python's [int(f)] does not fit a C long, or [f] is an infinity. *)
Definition int_overflows (f : spec_float) : bool :=
  negb (F64.is_nan f) && negb (F64.is_finite f && in_int64 (F64.trunc f)).

(** [.astype("Int64", errors="ignore")] in pandas 2:
    - an int64 or "Int64" column is cast as it is;
    - for a float64 column pandas first takes [int(...)] of the largest
      value that is not NaN, which is an [OverflowError] when that value
      is an infinity; [errors="ignore"] covers [ValueError] and
      [TypeError] only, so the exception leaves [coerce_numeric];
    - when that largest value is a fraction the column is handed over as
      Python objects, whose cast takes [int(...)] of every value (again
      an [OverflowError] for an infinity or a value beyond int64) before
      it is refused with a [TypeError];
    - otherwise every value has to survive the round trip through int64
      ([safe_cast]), or the cast is refused with a [TypeError];
    - a refused cast returns the column unchanged, as float64. *)
Definition astype_Int64 (c : numcol) : result numcol :=
  match c with
  | Int64Col l => Ok (NullableInt64Col (map Some l))
  | Float64Col l =>
      let float_path :=
        match all_some (map safe_cast l) with
        | Some zs => Ok (NullableInt64Col zs)
        | None => Ok (Float64Col l)
        end in
      match nanmax l with
      | None => float_path
      | Some m =>
          if negb (F64.is_finite m) then Raise OverflowError
          else if is_integral m then float_path
          else if existsb int_overflows l then Raise OverflowError
          else Ok (Float64Col l)
      end
  | NullableInt64Col l => Ok (NullableInt64Col l)
  end.

(** [coerce_numeric(s, dtype)].  The argument is [None] when the caller's
    [df.get(c, pd.NA)] fell back to the scalar [pd.NA]: [pd.to_numeric]
    then returns a NumPy scalar, whose [astype] has no [errors] keyword. *)
Definition coerce_numeric (s : option series) (d : dtype) : result numcol :=
  match s with
  | None => Raise TypeError
  | Some s =>
      let n := to_numeric s in
      match d with
      | Dfloat => Ok (Float64Col (astype_float n))
      | DInt64 => astype_Int64 n
      end
  end.

(** [.fillna(0)] on a numeric column. *)
Definition fillna_zero (c : numcol) : numcol :=
  match c with
  | Int64Col l => Int64Col l
  | Float64Col l =>
      Float64Col (map (fun f => if F64.is_nan f then F64.zero else f) l)
  | NullableInt64Col l =>
      NullableInt64Col
        (map (fun o => Some (match o with Some z => z | None => 0%Z end)) l)
  end.

(** [.astype(int)]: refuses NaN and the infinities. *)
Definition astype_int (c : numcol) : result (list Z) :=
  match c with
  | Int64Col l => Ok l
  | Float64Col l =>
      if forallb F64.is_finite l then Ok (map float_to_int64 l)
      else Raise IntCastingNaNError
  | NullableInt64Col l =>
      match all_some l with
      | Some zs => Ok zs
      | None => Raise ValueError
      end
  end.

(** [.astype(str)]: [str] of every value, the missing ones included. *)
Definition astype_str (s : series) : list obj :=
  match s with
  | Obj l =>
      map (fun o => OStr (match o with
                          | OStr s => s
                          | ONaN => "nan"
                          | ONA => "<NA>"
                          end)) l
  | Num (Int64Col l) => map (fun z => OStr (str_of_Z z)) l
  | Num (Float64Col l) => map (fun f => OStr (str_of_float f)) l
  | Num (NullableInt64Col l) =>
      map (fun o => OStr (match o with
                          | Some z => str_of_Z z
                          | None => "<NA>"
                          end)) l
  end.

(** ** Label and attack category *)

(** The chain applied to the attack category column:
    [.astype(str).str.strip().str.lower().replace({...}).fillna("benign")]. *)
Definition normalize_attack_cat (s : series) : series :=
  Obj (fillna_obj (OStr "benign")
        (replace [("normal", "benign"); ("nan", "benign")]
          (str_method lower (str_method strip (astype_str s))))).

(** [unify_label_attack(df)].  The function assigns into [df] itself and
    returns it: the result is the caller's batch after the call.  [labels]
    is the column just stored under ["label"], which the test
    [df["label"] == 1] reads back. *)
Definition unify_label_attack (df : frame) : result frame :=
  labels <- match get df "label" with
            | Some s => astype_int (fillna_zero (to_numeric s))
            | None => Ok (repeat 0%Z (index df))
            end ;;
  let df := setitem df "label" (Num (Int64Col labels)) in
  let df :=
    match get df "attack_cat" with
    | Some _ => df
    | None =>
        setitem df "attack_cat"
          (Obj (np_where (map (fun z => Z.eqb z 1) labels)
                         (OStr "attack") (OStr "benign")))
    end in
  cat <- getitem df "attack_cat" ;;
  Ok (setitem df "attack_cat" (normalize_attack_cat cat)).

(** ** The schema mapper *)

(** [s.fillna(0).astype(float)] *)
Definition filled_float (c : numcol) : list spec_float :=
  astype_float (fillna_zero c).

(** [out.loc[out[c] < 0, c] = pd.NA] on a numeric column.  A comparison
    with a null is not true, so nulls stay.  An int64 column is upcast to
    hold the null (not reached from the mapper, whose seven columns are
    float64 or "Int64"). *)
Definition null_negative_num (c : numcol) : numcol :=
  match c with
  | Float64Col l =>
      Float64Col (map (fun f => if F64.ltb0 f then F64.nan else f) l)
  | NullableInt64Col l =>
      NullableInt64Col
        (map (fun o => match o with
                       | Some z => if (z <? 0)%Z then None else Some z
                       | None => None
                       end) l)
  | Int64Col l =>
      if existsb (fun z => (z <? 0)%Z) l
      then Float64Col
             (map (fun z => if (z <? 0)%Z then F64.nan else F64.of_Z z) l)
      else Int64Col l
  end.

(** The same on any column: ordering a string against 0 is a [TypeError]
    (not reached from the mapper either). *)
Definition null_negative (s : series) : result series :=
  match s with
  | Num c => Ok (Num (null_negative_num c))
  | Obj l =>
      if existsb (fun o => match o with OStr _ => true | _ => false end) l
      then Raise TypeError
      else Ok s
  end.

(** The loop over [NONNEG_COLS]. *)
Definition sanity_pass (out : frame) : result frame :=
  fold_left
    (fun acc c =>
       out <- acc ;;
       s <- getitem out c ;;
       s' <- null_negative s ;;
       Ok (setitem out c s'))
    NONNEG_COLS (Ok out).

(** The assignments of [map_unsw_to_standard] up to the loop: the batch as
    derived, before negatives are removed.  The totals read back the four
    counters just stored in [out], which the names [bytes_out] .. [pkts_in]
    still hold.  The second component is the input batch as
    [unify_label_attack] leaves it ([df2] and [df] are one object). *)
Definition derive (df : frame) : result (frame * frame) :=
  let n := index df in
  let out := DataFrame n STANDARD_COLS in
  timestamp <- coerce_numeric (get df "stime") Dfloat ;;
  let out := setitem out "timestamp" (Num timestamp) in
  let out := setitem out "src_ip" (get_or df "srcip" (Obj (repeat ONA n))) in
  let out := setitem out "dst_ip" (get_or df "dstip" (Obj (repeat ONA n))) in
  src_port <- coerce_numeric (get df "sport") DInt64 ;;
  let out := setitem out "src_port" (Num src_port) in
  dst_port <- coerce_numeric (get df "dsport") DInt64 ;;
  let out := setitem out "dst_port" (Num dst_port) in
  let out := setitem out "proto"
    (Obj (str_method lower
            (astype_str (get_or df "proto" (Obj (repeat ONA n)))))) in
  duration <- coerce_numeric (get df "dur") Dfloat ;;
  let out := setitem out "duration" (Num duration) in
  bytes_out <- coerce_numeric (get df "sbytes") DInt64 ;;
  let out := setitem out "bytes_out" (Num bytes_out) in
  bytes_in <- coerce_numeric (get df "dbytes") DInt64 ;;
  let out := setitem out "bytes_in" (Num bytes_in) in
  pkts_out <- coerce_numeric (get df "spkts") DInt64 ;;
  let out := setitem out "pkts_out" (Num pkts_out) in
  pkts_in <- coerce_numeric (get df "dpkts") DInt64 ;;
  let out := setitem out "pkts_in" (Num pkts_in) in
  let out := setitem out "flow_bytes_total"
    (Num (Float64Col (zip_with F64.add (filled_float bytes_out)
                                       (filled_float bytes_in)))) in
  let out := setitem out "flow_pkts_total"
    (Num (Float64Col (zip_with F64.add (filled_float pkts_out)
                                       (filled_float pkts_in)))) in
  let out := setitem out "state"
    (Obj (str_method lower
            (astype_str (get_or df "state" (Obj (repeat ONA n)))))) in
  let out := setitem out "service"
    (get_or df "service" (Obj (repeat (OStr "unknown") n))) in
  df2 <- unify_label_attack df ;;
  label <- getitem df2 "label" ;;
  let out := setitem out "label" label in
  attack_cat <- getitem df2 "attack_cat" ;;
  let out := setitem out "attack_cat" attack_cat in
  let out := setitem out "dataset" (Obj (repeat (OStr "UNSW-NB15") n)) in
  Ok (out, df2).

(** [map_unsw_to_standard(df)]: the output batch, and [df] after the call. *)
Definition map_unsw_to_standard (df : frame) : result (frame * frame) :=
  r <- derive df ;;
  out <- sanity_pass (fst r) ;;
  Ok (out, snd r).

(** ** The driver *)

(** A path is the list of its parts, outermost first; the first part of an
    absolute path is the root "/", and the empty list is the path ".".
    Paths are resolved: they have no "." or ".." part and go through no
    link, so that two paths name one file only when they are equal. *)
Definition path : Type := list string.

(** [p.name] *)
Definition name (p : path) : string :=
  match p with
  | ["/"] => ""
  | _ => last p ""
  end.

(** [p.parent] *)
Definition parent (p : path) : path :=
  match p with
  | ["/"] => p
  | _ => removelast p
  end.

(** [str(p)] *)
Definition str_of_path (p : path) : string :=
  match p with
  | [] => "."
  | "/" :: rest => "/" ++ String.concat "/" rest
  | _ => String.concat "/" p
  end.

Fixpoint path_eqb (p q : path) : bool :=
  match p, q with
  | [], [] => true
  | a :: p', b :: q' => String.eqb a b && path_eqb p' q'
  | _, _ => false
  end.

(** Paths compare part by part. *)
Fixpoint path_leb (p q : path) : bool :=
  match p, q with
  | [], _ => true
  | _ :: _, [] => false
  | a :: p', b :: q' =>
      match String.compare a b with
      | Lt => true
      | Eq => path_leb p' q'
      | Gt => false
      end
  end.

Fixpoint insert_sorted (p : path) (l : list path) : list path :=
  match l with
  | [] => [p]
  | q :: r => if path_leb p q then p :: l else q :: insert_sorted p r
  end.

(** [sorted(paths)] *)
Definition sorted (l : list path) : list path :=
  fold_right insert_sorted [] l.

(** What a file holds: bytes the run did not write, or a gzip member
    written by [to_csv] (one batch, with or without the header row). *)
Inductive piece : Type :=
| Raw (bytes : string)
| Block (header : bool) (batch : frame).

Record filesystem : Type := {
  dirs : list path;
  files : list (path * list piece)
}.

Fixpoint file_lookup (p : path) (fs : list (path * list piece))
  : option (list piece) :=
  match fs with
  | [] => None
  | (q, c) :: r => if path_eqb q p then Some c else file_lookup p r
  end.

Fixpoint file_store (p : path) (c : list piece) (fs : list (path * list piece))
  : list (path * list piece) :=
  match fs with
  | [] => [(p, c)]
  | (q, d) :: r =>
      if path_eqb q p then (q, c) :: r else (q, d) :: file_store p c r
  end.

(** The directory and its ancestors, outermost first. *)
Fixpoint ancestors (p : path) : list path :=
  match p with
  | [] => [[]]
  | a :: r => [] :: map (cons a) (ancestors r)
  end.

(** [p.mkdir(parents=True, exist_ok=True)]: an [OSError] when the path or
    one of its ancestors is an existing file. *)
Definition mkdir (p : path) (w : filesystem) : result filesystem :=
  if existsb (fun q => match file_lookup q (files w) with
                       | Some _ => true
                       | None => false
                       end) (ancestors p)
  then Raise OSError
  else Ok {| dirs := dirs w ++ filter
                       (fun q => negb (existsb (path_eqb q) (dirs w)))
                       (ancestors p);
             files := files w |}.

(** The two modes the script opens the output with. *)
Inductive mode : Type :=
| ModeW      (* "w": create or truncate *)
| ModeA.     (* "a": append *)

(** [batch.to_csv(p, mode=m, header=h, index=False, compression="gzip")]:
    an [OSError] when the path is a directory or its parent is none. *)
Definition to_csv (batch : frame) (p : path) (m : mode) (h : bool)
    (w : filesystem) : result filesystem :=
  if existsb (path_eqb p) (dirs w)
     || negb (existsb (path_eqb (parent p)) (dirs w))
  then Raise OSError
  else
    let old := match m, file_lookup p (files w) with
               | ModeA, Some c => c
               | _, _ => []
               end in
    Ok {| dirs := dirs w;
          files := file_store p (old ++ [Block h batch]) (files w) |}.

(** The file system as the libraries read it: the paths [Path.glob] finds
    for a pattern under a directory, and the chunks [pd.read_csv] yields
    for a file under the given column names and chunk size, followed by
    the exception that ends the iteration early, if any. *)
Variable glob : filesystem -> path -> string -> list path.
Variable read_csv :
  filesystem -> path -> list string -> N -> list frame * option exn.

Record args : Type := {
  input_dir : path;
  pattern : string;
  out : path;
  chunksize : N
}.

(** The state of the loops of [main]. *)
Record run : Type := {
  first_write : bool;
  total_rows : nat;
  world : filesystem
}.

(** [chunk[c] = chunk[c].astype(str).str.strip()] for the object columns. *)
Definition clean_text (chunk : frame) : frame :=
  DataFrame_of (index chunk)
    (map (fun kv =>
            match snd kv with
            | Obj l => (fst kv, Obj (str_method strip (astype_str (Obj l))))
            | Num c => kv
            end) (columns chunk)).

(** [chunk.replace([np.inf, -np.inf], np.nan, inplace=True)] *)
Definition replace_inf (chunk : frame) : frame :=
  DataFrame_of (index chunk)
    (map (fun kv =>
            match snd kv with
            | Num (Float64Col l) =>
                (fst kv,
                 Num (Float64Col
                        (map (fun f => match f with
                                       | S754_infinity _ => F64.nan
                                       | _ => f
                                       end) l)))
            | _ => kv
            end) (columns chunk)).

(** The body of the inner loop.  An exception leaves the state as it is. *)
Definition process_chunk (a : args) (st : run) (chunk : frame)
  : option exn * run :=
  let chunk := replace_inf (clean_text chunk) in
  match map_unsw_to_standard chunk with
  | Raise e => (Some e, st)
  | Ok (mapped, _) =>
      let m := if first_write st then ModeW else ModeA in
      match to_csv mapped (out a) m (first_write st) (world st) with
      | Raise e => (Some e, st)
      | Ok w =>
          (None, {| first_write := false;
                    total_rows := total_rows st + index mapped;
                    world := w |})
      end
  end.

Fixpoint process_chunks (a : args) (st : run) (chunks : list frame)
  : option exn * run :=
  match chunks with
  | [] => (None, st)
  | chunk :: rest =>
      match process_chunk a st chunk with
      | (None, st') => process_chunks a st' rest
      | failed => failed
      end
  end.

(** The body of the outer loop: the chunks of one file, then the exception
    the reader ended with, if any.  The reader sees the file system as it
    is when the file is opened. *)
Definition process_file (a : args) (st : run) (fp : path) : option exn * run :=
  let (chunks, err) := read_csv (world st) fp UNSW_HEADER (chunksize a) in
  match process_chunks a st chunks with
  | (None, st') => (err, st')
  | failed => failed
  end.

Fixpoint process_files (a : args) (st : run) (fps : list path)
  : option exn * run :=
  match fps with
  | [] => (None, st)
  | fp :: rest =>
      match process_file a st fp with
      | (None, st') => process_files a st' rest
      | failed => failed
      end
  end.

(** The files the run reads: the sorted matches whose name does not
    mention "feature". *)
Definition eligible (w : filesystem) (a : args) : list path :=
  filter (fun f => negb (contains "feature" (lower (name f))))
         (sorted (glob w (input_dir a) (pattern a))).

(** [main()], without its progress messages: the exception that ended the
    run, if any, and the file system it leaves. *)
Definition main (a : args) (w : filesystem) : option exn * filesystem :=
  match eligible w a with
  | [] =>
      (Some (SystemExit ("No UNSW-NB15 CSV files found in "
                           ++ str_of_path (input_dir a))), w)
  | fps =>
      match mkdir (parent (out a)) w with
      | Raise e => (Some e, w)
      | Ok w1 =>
          let (e, st) :=
            process_files a
              {| first_write := true; total_rows := 0; world := w1 |} fps in
          (e, world st)
      end
  end.

(** ** Reading the batches *)

(** The output batch, column by column. *)
Definition standard_batch (n : nat)
    (timestamp src_ip src_port dst_ip dst_port proto duration
     bytes_out bytes_in pkts_out pkts_in flow_bytes_total flow_pkts_total
     state service label attack_cat : series) : frame :=
  DataFrame_of n
    [ ("timestamp", timestamp); ("src_ip", src_ip); ("src_port", src_port);
      ("dst_ip", dst_ip); ("dst_port", dst_port); ("proto", proto);
      ("duration", duration); ("bytes_out", bytes_out);
      ("bytes_in", bytes_in); ("pkts_out", pkts_out); ("pkts_in", pkts_in);
      ("flow_bytes_total", flow_bytes_total);
      ("flow_pkts_total", flow_pkts_total); ("state", state);
      ("service", service); ("label", label); ("attack_cat", attack_cat);
      ("dataset", Obj (repeat (OStr "UNSW-NB15") n)) ].

(** The labels [unify_label_attack] computes. *)
Definition unified_labels (df : frame) : result (list Z) :=
  match get df "label" with
  | Some s => astype_int (fillna_zero (to_numeric s))
  | None => Ok (repeat 0%Z (index df))
  end.

(** The attack categories it starts from. *)
Definition raw_categories (df : frame) (labels : list Z) : series :=
  match get df "attack_cat" with
  | Some s => s
  | None =>
      Obj (np_where (map (fun z => Z.eqb z 1) labels)
                    (OStr "attack") (OStr "benign"))
  end.

(** The totals of a pair of counters:
    [a.fillna(0).astype(float) + b.fillna(0).astype(float)]. *)
Definition totals (a b : numcol) : numcol :=
  Float64Col (zip_with F64.add (filled_float a) (filled_float b)).

(** The batch [derive] builds from the coerced columns and the labels. *)
Definition derived_batch (df : frame)
    (timestamp src_port dst_port duration
     bytes_out bytes_in pkts_out pkts_in : numcol) (labels : list Z) : frame :=
  let n := index df in
  standard_batch n
    (Num timestamp)
    (get_or df "srcip" (Obj (repeat ONA n)))
    (Num src_port)
    (get_or df "dstip" (Obj (repeat ONA n)))
    (Num dst_port)
    (Obj (str_method lower
            (astype_str (get_or df "proto" (Obj (repeat ONA n))))))
    (Num duration) (Num bytes_out) (Num bytes_in)
    (Num pkts_out) (Num pkts_in)
    (Num (totals bytes_out bytes_in)) (Num (totals pkts_out pkts_in))
    (Obj (str_method lower
            (astype_str (get_or df "state" (Obj (repeat ONA n))))))
    (get_or df "service" (Obj (repeat (OStr "unknown") n)))
    (Num (Int64Col labels))
    (normalize_attack_cat (raw_categories df labels)).

(** The same batch after the loop over [NONNEG_COLS]. *)
Definition mapped_batch (df : frame)
    (timestamp src_port dst_port duration
     bytes_out bytes_in pkts_out pkts_in : numcol) (labels : list Z) : frame :=
  let n := index df in
  standard_batch n
    (Num timestamp)
    (get_or df "srcip" (Obj (repeat ONA n)))
    (Num src_port)
    (get_or df "dstip" (Obj (repeat ONA n)))
    (Num dst_port)
    (Obj (str_method lower
            (astype_str (get_or df "proto" (Obj (repeat ONA n))))))
    (Num (null_negative_num duration))
    (Num (null_negative_num bytes_out)) (Num (null_negative_num bytes_in))
    (Num (null_negative_num pkts_out)) (Num (null_negative_num pkts_in))
    (Num (null_negative_num (totals bytes_out bytes_in)))
    (Num (null_negative_num (totals pkts_out pkts_in)))
    (Obj (str_method lower
            (astype_str (get_or df "state" (Obj (repeat ONA n))))))
    (get_or df "service" (Obj (repeat (OStr "unknown") n)))
    (Num (Int64Col labels))
    (normalize_attack_cat (raw_categories df labels)).

(** The input batch as the mapper leaves it. *)
Definition unified_input (df : frame) (labels : list Z) : frame :=
  setitem (setitem df "label" (Num (Int64Col labels))) "attack_cat"
    (normalize_attack_cat (raw_categories df labels)).

(** One cell of a numeric column, read row by row: an integer, a float
    that is not NaN, or the null of the column's dtype. *)
Inductive value : Type :=
| VInt (z : Z)
| VFloat (f : spec_float)
| VNull.

Definition cells (c : numcol) : list value :=
  match c with
  | Int64Col l => map VInt l
  | Float64Col l => map (fun f => if F64.is_nan f then VNull else VFloat f) l
  | NullableInt64Col l =>
      map (fun o => match o with Some z => VInt z | None => VNull end) l
  end.

(** The reading of the specification: an operand of a total counts as a
    float, a null operand as zero. *)
Definition spec_operand (v : value) : spec_float :=
  match v with
  | VInt z => F64.of_Z z
  | VFloat f => f
  | VNull => F64.zero
  end.

Definition spec_total (a b : value) : spec_float :=
  F64.add (spec_operand a) (spec_operand b).

(** The reading of the specification for a label: the integer cast of the
    value, 0 for a null. *)
Definition spec_label (v : value) : Z :=
  match v with
  | VInt z => z
  | VFloat f => float_to_int64 f
  | VNull => 0%Z
  end.

(** Null, or not below zero. *)
Definition null_or_nonneg (v : value) : bool :=
  match v with
  | VInt z => (0 <=? z)%Z
  | VFloat f => F64.geb0 f
  | VNull => true
  end.

(** Two infinities of opposite sign: the one sum of two numbers that IEEE
    arithmetic answers with NaN. *)
Definition opposite_infinities (a b : spec_float) : bool :=
  match a, b with
  | S754_infinity s, S754_infinity t => xorb s t
  | _, _ => false
  end.

(** The chain of [normalize_attack_cat] on one string. *)
Definition normalize_str (s : string) : string :=
  replace_str [("normal", "benign"); ("nan", "benign")] (lower (strip s)).

(** The chain of [normalize_attack_cat] on one cell, after [astype(str)]. *)
Definition normalize_obj (o : obj) : obj :=
  match o with
  | OStr s => OStr (normalize_str s)
  | _ => OStr "benign"
  end.

(** [str(o).lower()]: a cell of the protocol and state columns. *)
Definition lower_obj (o : obj) : obj :=
  OStr (match o with
        | OStr s => lower s
        | ONaN => "nan"
        | ONA => "<na>"
        end).

(** A string in lower case. *)
Definition is_lower_str (o : obj) : Prop :=
  exists s, o = OStr s /\ lower s = s.

(** The loop over [NONNEG_COLS] on one cell. *)
Definition spec_sanity (v : value) : value :=
  if null_or_nonneg v then v else VNull.

(** The batch of one written gzip member has "unknown" in every row of its
    service column. *)
Definition service_unknown (pc : piece) : Prop :=
  exists h batch,
    pc = Block h batch /\
    get batch "service" = Some (Obj (repeat (OStr "unknown") (index batch))).

(** A coerced column is float64 or "Int64". *)
Definition coerced_dtype (c : numcol) : Prop :=
  match c with
  | Int64Col _ => False
  | _ => True
  end.

(** What the loops keep true of the output file: nothing is written yet
    and the file is as the run found it, or every member of it is a batch
    of this run. *)
Definition output_invariant (a : args) (w0 : filesystem) (st : run) : Prop :=
  (first_write st = true /\
   file_lookup (out a) (files (world st)) = file_lookup (out a) (files w0))
  \/
  (first_write st = false /\
   exists content,
     file_lookup (out a) (files (world st)) = Some content /\
     Forall service_unknown content).

(** Two cells hold the same number: a null stays a null, an integer that
    replaces a float compares equal to it. *)
Definition same_number (v w : value) : Prop :=
  match v, w with
  | VNull, VNull => True
  | VInt a, VInt b => a = b
  | VFloat f, VFloat g => f = g
  | VFloat f, VInt z => F64.eqb (F64.of_Z z) f = true
  | _, _ => False
  end.

(** The source columns the mapper coerces to numbers. *)
Definition COERCED_SOURCES : list string :=
  [ "stime"; "sport"; "dsport"; "dur"; "sbytes"; "dbytes"; "spkts"; "dpkts" ].

(** One step of the loop of [sanity_pass]. *)
Definition sanity_step (acc : result frame) (c : string) : result frame :=
  out <- acc ;;
  s <- getitem out c ;;
  s' <- null_negative s ;;
  Ok (setitem out c s').

(** A file written by one run: a first member with the header row, then
    members without it. *)
Definition header_once (content : list piece) : Prop :=
  exists first rest, content = Block true first :: map (Block false) rest.

(** The rows of the batches a file holds. *)
Fixpoint rows (content : list piece) : nat :=
  match content with
  | [] => 0
  | Raw _ :: rest => rows rest
  | Block _ batch :: rest => index batch + rows rest
  end.

(** What the loops keep true of their state, from a start with nothing
    written, no row counted and the file system [w0]: either that is still
    so, or the output holds the header once and as many rows as counted. *)
Definition write_invariant (a : args) (w0 : filesystem) (st : run) : Prop :=
  (first_write st = true /\ total_rows st = 0 /\ world st = w0)
  \/
  (first_write st = false /\
   exists content,
     file_lookup (out a) (files (world st)) = Some content /\
     header_once content /\
     total_rows st = rows content).

(** What they keep true of the rest of the file system. *)
Definition frame_invariant (a : args) (w0 : filesystem) (st : run) : Prop :=
  dirs (world st) = dirs w0 /\
  forall p, path_eqb p (out a) = false ->
            file_lookup p (files (world st)) = file_lookup p (files w0).

(** What the driver does to one column before the mapper sees it: an
    object column becomes stripped text, a float64 column loses its
    infinities. *)
Definition clean_series (s : series) : series :=
  match s with
  | Obj l => Obj (str_method strip (astype_str (Obj l)))
  | Num (Float64Col l) =>
      Num (Float64Col
             (map (fun f => match f with
                            | S754_infinity _ => F64.nan
                            | _ => f
                            end) l))
  | _ => s
  end.

Definition is_infinity (f : spec_float) : bool :=
  match f with
  | S754_infinity _ => true
  | _ => false
  end.

(** The integers of a column lie in the int64 range, as they do in every
    int64 and "Int64" column pandas builds. *)
Definition int64_numcol (c : numcol) : bool :=
  match c with
  | Int64Col l => forallb in_int64 l
  | Float64Col _ => true
  | NullableInt64Col l =>
      forallb (fun o => match o with
                        | Some z => in_int64 z
                        | None => true
                        end) l
  end.

Definition int64_series (s : series) : bool :=
  match s with
  | Num c => int64_numcol c
  | Obj _ => true
  end.

Definition int64_frame (df : frame) : bool :=
  forallb (fun kv => int64_series (snd kv)) (columns df).

(** The source columns the mapper coerces, each with its dtype. *)
Definition COERCIONS : list (string * dtype) :=
  [ ("stime", Dfloat); ("sport", DInt64); ("dsport", DInt64);
    ("dur", Dfloat); ("sbytes", DInt64); ("dbytes", DInt64);
    ("spkts", DInt64); ("dpkts", DInt64) ].

(** The coercion of one source column returns. *)
Definition coerces (df : frame) (cd : string * dtype) : Prop :=
  exists col, coerce_numeric (get df (fst cd)) (snd cd) = Ok col.

(** No number of the column is an infinity or lies beyond int64. *)
Definition castable (c : numcol) : bool :=
  match c with
  | Float64Col l => negb (existsb int_overflows l)
  | _ => true
  end.

(** The source column is there, and its numbers can be cast to the dtype
    the mapper asks for. *)
Definition coercible (df : frame) (cd : string * dtype) : Prop :=
  exists s, get df (fst cd) = Some s /\
            (snd cd = Dfloat \/ castable (to_numeric s) = true).

(** The source columns the mapper coerces to "Int64". *)
Definition INT64_SOURCES : list string :=
  [ "sport"; "dsport"; "sbytes"; "dbytes"; "spkts"; "dpkts" ].

(** A path with no "." and no ".." part. *)
Definition resolved (p : path) : bool :=
  forallb (fun part => negb (String.eqb part "." || String.eqb part ".."))
          p.

Definition is_absolute (p : path) : bool :=
  match p with
  | "/" :: _ => true
  | _ => false
  end.

(** Two paths that name two files of a file system without links: they
    have no "." or ".." part, both are absolute or both are relative to
    the working directory, and they differ. *)
Definition distinct_files (p q : path) : Prop :=
  resolved p = true /\ resolved q = true /\
  is_absolute p = is_absolute q /\ p <> q.

(** A stripped string. *)
Definition is_stripped_str (o : obj) : Prop :=
  exists s, o = OStr s /\ strip s = s.

(** The file the run keeps: its name does not mention "feature". *)
Definition keeps (f : path) : bool :=
  negb (contains "feature" (lower (name f))).

(** The order of the paths. *)
Definition path_le (p q : path) : Prop := path_leb p q = true.

(** ** Sample batches *)

(** 1.5, that is 3 * 2^-1. *)
Definition one_and_a_half : spec_float :=
  binary_normalize F64.prec F64.emax 3 (-1) false.

(** The row of the scenario, with the dtypes [read_csv] infers for it; it
    has no label column. *)
Definition scenario : frame :=
  DataFrame_of 1
    [ ("srcip", Obj [OStr "10.0.0.1"]); ("sport", Num (Int64Col [80%Z]));
      ("dstip", Obj [OStr "10.0.0.2"]); ("dsport", Num (Int64Col [443%Z]));
      ("proto", Obj [OStr "TCP"]); ("state", Obj [OStr "FIN"]);
      ("dur", Num (Float64Col [one_and_a_half]));
      ("sbytes", Num (Int64Col [500%Z])); ("dbytes", Num (Int64Col [(-20)%Z]));
      ("spkts", Num (Int64Col [5%Z])); ("dpkts", Num (Int64Col [3%Z]));
      ("stime", Num (Int64Col [1000000%Z]));
      ("attack_cat", Obj [OStr "Normal"]) ].

(** What the mapper returns for it: the total of the bytes is
    500 + (-20) = 480. *)
Definition scenario_mapped : frame :=
  standard_batch 1
    (Num (Float64Col [F64.of_Z 1000000]))
    (Obj [OStr "10.0.0.1"]) (Num (NullableInt64Col [Some 80%Z]))
    (Obj [OStr "10.0.0.2"]) (Num (NullableInt64Col [Some 443%Z]))
    (Obj [OStr "tcp"])
    (Num (Float64Col [one_and_a_half]))
    (Num (NullableInt64Col [Some 500%Z])) (Num (NullableInt64Col [None]))
    (Num (NullableInt64Col [Some 5%Z])) (Num (NullableInt64Col [Some 3%Z]))
    (Num (Float64Col [F64.of_Z 480])) (Num (Float64Col [F64.of_Z 8]))
    (Obj [OStr "fin"]) (Obj [OStr "unknown"])
    (Num (Int64Col [0%Z])) (Obj [OStr "benign"]).

(** The scenario with a raw label of 5. *)
Definition label_five : frame :=
  setitem scenario "label" (Num (Int64Col [5%Z])).

(** The scenario with an attack category of three spaces. *)
Definition blank_category : frame :=
  setitem scenario "attack_cat" (Obj [OStr "   "]).

(** The scenario with the protocol and the state missing. *)
Definition missing_proto : frame :=
  setitem (setitem scenario "proto" (Obj [ONaN])) "state" (Obj [ONaN]).

(** The scenario with infinite byte counters of opposite sign. *)
Definition infinite_bytes : frame :=
  setitem (setitem scenario "sbytes" (Num (Float64Col [S754_infinity false])))
          "dbytes" (Num (Float64Col [S754_infinity true])).

(** A chunk under the header with the text " 7 " in every field but the
    label, which is the float +inf. *)
Definition text_chunk : frame :=
  DataFrame_of 1
    (map (fun c => (c, if String.eqb c "label"
                       then Num (Float64Col [S754_infinity false])
                       else Obj [OStr " 7 "])) UNSW_HEADER).

(** A chunk under the header with +inf in every field. *)
Definition infinite_chunk : frame :=
  DataFrame_of 1
    (map (fun c => (c, Num (Float64Col [S754_infinity false]))) UNSW_HEADER).

(** A float64 column with 2.0 and a missing value. *)
Definition two_and_missing : series :=
  Num (Float64Col [F64.of_Z 2; S754_nan]).

(** ** A sample environment *)

(** A numeric parser for the plain decimal integers of the int64 range. *)
Definition parse_integer (s : string) : option number :=
  match NilZero.int_of_string s with
  | Some d => option_map NInt (int64_of_Z (Z.of_int d))
  | None => None
  end.

(** A stand-in for [repr]: the samples print no finite float. *)
Definition repr_sample (f : spec_float) : string := "?".

(** The answer of the x86-64 conversion for a float that does not fit. *)
Definition cast_x86 (f : spec_float) : int64 := mk_int64 int64_min eq_refl.

(** A [glob] that finds every file of the directory, whatever the
    pattern. *)
Definition glob_sample (w : filesystem) (d : path) (pat : string)
  : list path :=
  filter (fun p => path_eqb (parent p) d) (map fst (files w)).

(** A reader for files of one row: every field holds the text of the
    file. *)
Definition read_csv_sample (w : filesystem) (p : path) (names : list string)
    (n : N) : list frame * option exn :=
  match file_lookup p (files w) with
  | Some [Raw b] =>
      ([DataFrame_of 1 (map (fun c => (c, Obj [OStr b])) names)], None)
  | _ => ([], Some OSError)
  end.

Definition sample_args : args :=
  {| input_dir := ["data"];
     pattern := "UNSW-NB15_[1-4].csv";
     out := ["data"; "processed"; "unsw_nb15_merge_ready.csv.gz"];
     chunksize := 250000%N |}.

(** A directory with one part, and one with the feature list only. *)
Definition one_part : filesystem :=
  {| dirs := [["data"]];
     files := [(["data"; "UNSW-NB15_1.csv"], [Raw "0"])] |}.

Definition features_only : filesystem :=
  {| dirs := [["data"]];
     files := [(["data"; "UNSW-NB15_features.csv"], [Raw "Name"])] |}.

(** The directory with one part once the directory of the output is
    there. *)
Definition prepared : filesystem :=
  {| dirs := [["data"]; ["data"; "processed"]];
     files := files one_part |}.

(** * Properties *)

(** ** Strings *)

Lemma lower_char_idem c : lower_char (lower_char c) = lower_char c.
Proof. destruct c as [[] [] [] [] [] [] [] []]; reflexivity. Qed.

Lemma is_space_lower_char c : is_space (lower_char c) = is_space c.
Proof. destruct c as [[] [] [] [] [] [] [] []]; reflexivity. Qed.

Lemma lower_idem s : lower (lower s) = lower s.
Proof.
  induction s as [|c s IH]; simpl; [reflexivity|].
  now rewrite lower_char_idem, IH.
Qed.

Lemma lstrip_lower s : lstrip (lower s) = lower (lstrip s).
Proof.
  induction s as [|c s IH]; simpl; [reflexivity|].
  rewrite is_space_lower_char. destruct (is_space c); [exact IH | reflexivity].
Qed.

Lemma rstrip_lower s : rstrip (lower s) = lower (rstrip s).
Proof.
  induction s as [|c s IH]; simpl; [reflexivity|].
  rewrite IH, is_space_lower_char.
  destruct (rstrip s); simpl; [destruct (is_space c)|]; reflexivity.
Qed.

Lemma strip_lower s : strip (lower s) = lower (strip s).
Proof. unfold strip. now rewrite lstrip_lower, rstrip_lower. Qed.

Lemma rstrip_idem s : rstrip (rstrip s) = rstrip s.
Proof.
  induction s as [|c s IH]; simpl; [reflexivity|].
  destruct (rstrip s) as [|d r] eqn:E.
  - destruct (is_space c) eqn:Ec; simpl; [reflexivity|]. now rewrite Ec.
  - simpl in *. now rewrite IH.
Qed.

(** A string that does not start with a space keeps its first character
    under [rstrip]. *)
Lemma lstrip_rstrip_fix s : lstrip s = s -> lstrip (rstrip s) = rstrip s.
Proof.
  destruct s as [|c s]; simpl; [reflexivity|].
  destruct (is_space c) eqn:Ec.
  - intros H. exfalso.
    assert (L : forall t, String.length (lstrip t) <= String.length t).
    { clear. induction t as [|d t IH]; simpl; [lia|].
      destruct (is_space d); simpl; lia. }
    specialize (L s). rewrite H in L. simpl in L. lia.
  - intros _. destruct (rstrip s); simpl; now rewrite Ec.
Qed.

Lemma lstrip_idem s : lstrip (lstrip s) = lstrip s.
Proof.
  induction s as [|c s IH]; simpl; [reflexivity|].
  destruct (is_space c) eqn:Ec; [exact IH | simpl; now rewrite Ec].
Qed.

Lemma strip_idem s : strip (strip s) = strip s.
Proof.
  unfold strip.
  rewrite (lstrip_rstrip_fix (lstrip s)) by apply lstrip_idem.
  apply rstrip_idem.
Qed.

Lemma strip_lower_strip s : strip (lower (strip s)) = lower (strip s).
Proof. now rewrite strip_lower, strip_idem. Qed.

Lemma normalize_str_cases s :
  normalize_str s = "benign" \/ normalize_str s = lower (strip s).
Proof.
  unfold normalize_str. simpl.
  destruct (lower (strip s) =? "normal")%string; [now left|].
  destruct (lower (strip s) =? "nan")%string; [now left | now right].
Qed.

Lemma normalize_str_trimmed s : strip (normalize_str s) = normalize_str s.
Proof.
  destruct (normalize_str_cases s) as [-> | ->];
    [reflexivity | apply strip_lower_strip].
Qed.

Lemma normalize_str_lower s : lower (normalize_str s) = normalize_str s.
Proof.
  destruct (normalize_str_cases s) as [-> | ->];
    [reflexivity | apply lower_idem].
Qed.

Lemma normalize_str_idem s : normalize_str (normalize_str s) = normalize_str s.
Proof.
  unfold normalize_str at 1.
  rewrite normalize_str_trimmed, normalize_str_lower.
  unfold normalize_str. simpl.
  destruct (lower (strip s) =? "normal")%string eqn:E1; [reflexivity|].
  destruct (lower (strip s) =? "nan")%string eqn:E2; [reflexivity|].
  now rewrite E1, E2.
Qed.

(** ** binary64 *)

Lemma iter_pos_invariant {A : Type} (P : A -> Prop) (f : A -> A) :
  (forall x, P x -> P (f x)) -> forall n x, P x -> P (iter_pos f n x).
Proof.
  intros Hf. induction n as [n IH | n IH |]; simpl; intros x Hx; auto.
Qed.

Lemma shr_1_nonneg mrs : (0 <= shr_m mrs)%Z -> (0 <= shr_m (shr_1 mrs))%Z.
Proof.
  destruct mrs as [m r s]. simpl.
  destruct m as [|[p|p|]|[p|p|]]; simpl; lia.
Qed.

Lemma shr_nonneg mrs e n :
  (0 <= shr_m mrs)%Z -> (0 <= shr_m (fst (shr mrs e n)))%Z.
Proof.
  intros H. unfold shr. destruct n; simpl; auto.
  apply iter_pos_invariant; auto using shr_1_nonneg.
Qed.

Lemma shr_record_of_loc_m m l : shr_m (shr_record_of_loc m l) = m.
Proof. destruct l as [|[]]; reflexivity. Qed.

Lemma shr_fexp_nonneg p e m ex l :
  (0 <= m)%Z -> (0 <= shr_m (fst (shr_fexp p e m ex l)))%Z.
Proof.
  intros H. unfold shr_fexp. apply shr_nonneg.
  now rewrite shr_record_of_loc_m.
Qed.

Lemma round_nearest_even_nonneg m l :
  (0 <= m)%Z -> (0 <= round_nearest_even m l)%Z.
Proof.
  intros H. unfold round_nearest_even.
  destruct l as [|[]]; try destruct (Z.even m); lia.
Qed.

Lemma binary_round_aux_not_nan p e sx mx ex lx :
  (0 <= mx)%Z -> binary_round_aux p e sx mx ex lx <> S754_nan.
Proof.
  intros H. unfold binary_round_aux.
  pose proof (shr_fexp_nonneg p e mx ex lx H) as H1.
  destruct (shr_fexp p e mx ex lx) as [mrs' e'] eqn:E1. simpl in H1.
  pose proof (shr_fexp_nonneg p e _ e' loc_Exact
                (round_nearest_even_nonneg _ (loc_of_shr_record mrs') H1)) as H2.
  destruct (shr_fexp p e _ e' loc_Exact) as [mrs'' e''] eqn:E2. simpl in H2.
  destruct (shr_m mrs'') as [|q|q]; try discriminate; [|lia].
  destruct (Z.leb e'' (Z.sub e p)); discriminate.
Qed.

Lemma binary_normalize_not_nan p e m ex sz :
  binary_normalize p e m ex sz <> S754_nan.
Proof.
  unfold binary_normalize, binary_round.
  destruct m as [|q|q]; try discriminate;
    destruct (shl_align _ _ _) as [mz ez];
    apply binary_round_aux_not_nan; lia.
Qed.

Lemma of_Z_not_nan z : F64.is_nan (F64.of_Z z) = false.
Proof.
  pose proof (binary_normalize_not_nan F64.prec F64.emax z 0 false) as H.
  unfold F64.of_Z. destruct (binary_normalize _ _ _ _ _); simpl; congruence.
Qed.

(** The sum of two numbers is NaN for opposite infinities only. *)
Lemma add_nan a b :
  F64.is_nan a = false -> F64.is_nan b = false ->
  F64.is_nan (F64.add a b) = opposite_infinities a b.
Proof.
  intros Ha Hb. unfold F64.add, SFadd.
  destruct a as [sa|sa| |sa ma ea]; try discriminate;
    destruct b as [sb|sb| |sb mb eb]; try discriminate;
    try (destruct sa, sb; reflexivity); try reflexivity.
  simpl opposite_infinities.
  match goal with
  | |- F64.is_nan ?x = false =>
      assert (H : x <> S754_nan) by apply binary_normalize_not_nan;
      destruct x; simpl; congruence
  end.
Qed.

Open Scope Z_scope.

(** The number of binary digits grows by at most one with the number. *)
Lemma digits2_pos_succ p :
  (digits2_pos (Pos.succ p) <= Pos.succ (digits2_pos p))%positive.
Proof. induction p as [p IH|p IH|]; simpl; lia. Qed.

Lemma digits2_pos_shift m n :
  digits2_pos (Pos.iter xO m n) = (digits2_pos m + n)%positive.
Proof.
  induction n as [|n IH] using Pos.peano_ind.
  - simpl. lia.
  - rewrite Pos.iter_succ. simpl. rewrite IH. lia.
Qed.

Lemma digits2_pos_bound p : forall n,
  0 <= n -> Zpos p < 2 ^ n -> Zpos (digits2_pos p) <= n.
Proof.
  induction p as [p IH|p IH|]; intros n Hn H.
  - assert (n <> 0) by (intros ->; simpl in H; lia).
    replace n with (Z.succ (n - 1)) in H by lia.
    rewrite Z.pow_succ_r in H by lia.
    specialize (IH (n - 1)). simpl. lia.
  - assert (n <> 0) by (intros ->; simpl in H; lia).
    replace n with (Z.succ (n - 1)) in H by lia.
    rewrite Z.pow_succ_r in H by lia.
    specialize (IH (n - 1)). simpl. lia.
  - assert (n <> 0) by (intros ->; simpl in H; lia). simpl. lia.
Qed.

Definition small (D : Z) (mrs : shr_record) : Prop :=
  0 <= shr_m mrs /\ Zdigits2 (shr_m mrs) <= D.

Lemma shr_1_small D mrs : small D mrs -> small D (shr_1 mrs).
Proof.
  destruct mrs as [m r s]. unfold small. simpl.
  destruct m as [|[p|p|]|[p|p|]]; simpl; lia.
Qed.

Lemma iter_pos_small D n : forall mrs,
  small D mrs -> small D (iter_pos shr_1 n mrs).
Proof.
  induction n as [n IH|n IH|]; simpl; intros mrs H.
  - apply IH, IH, shr_1_small, H.
  - apply IH, IH, H.
  - apply shr_1_small, H.
Qed.

Lemma shr_fexp_small m e l D :
  0 <= m -> Zdigits2 m <= D ->
  small D (fst (shr_fexp F64.prec F64.emax m e l)).
Proof.
  intros H0 HD. unfold shr_fexp, shr.
  assert (S : small D (shr_record_of_loc m l)).
  { destruct l as [|[| |]]; split; assumption. }
  destruct (_ - e); simpl; [exact S | apply iter_pos_small, S | exact S].
Qed.

Lemma fexp_64 x : fexp F64.prec F64.emax x = Z.max (x - 53) (-1074).
Proof. reflexivity. Qed.

Lemma shr_fexp_exponent m e l :
  snd (shr_fexp F64.prec F64.emax m e l)
  <= Z.max e (Z.max (Zdigits2 m + e - 53) (-1074)).
Proof.
  unfold shr_fexp, shr. rewrite fexp_64.
  destruct (_ - e) eqn:E; cbn [snd]; lia.
Qed.

Lemma round_nearest_even_small m l D :
  0 <= m -> Zdigits2 m <= D ->
  0 <= round_nearest_even m l /\ Zdigits2 (round_nearest_even m l) <= D + 1.
Proof.
  intros H0 HD.
  assert (S : 0 <= m + 1 /\ Zdigits2 (m + 1) <= D + 1).
  { split; [lia|]. destruct m as [|p|p]; simpl in *; [lia| |lia].
    rewrite Pos.add_1_r. pose proof (digits2_pos_succ p). lia. }
  destruct l as [|[| |]]; simpl; try (split; lia); try exact S.
  destruct (Z.even m); [split; lia | exact S].
Qed.

(** Rounding a mantissa of at most 64 digits with an exponent of at most
    zero does not overflow. *)
Lemma binary_round_aux_no_overflow sx mx ex :
  Zpos (digits2_pos mx) <= 64 -> ex <= 0 ->
  is_infinity (binary_round_aux F64.prec F64.emax sx (Zpos mx) ex loc_Exact)
  = false.
Proof.
  intros Hd He. unfold binary_round_aux.
  pose proof (shr_fexp_exponent (Zpos mx) ex loc_Exact) as E1.
  pose proof (shr_fexp_small (Zpos mx) ex loc_Exact 64 ltac:(lia) Hd) as S1.
  destruct (shr_fexp _ _ (Zpos mx) ex loc_Exact) as [mrs' e'].
  cbn [fst snd] in E1, S1. destruct S1 as [S0 S1].
  pose proof (round_nearest_even_small (shr_m mrs') (loc_of_shr_record mrs')
                64 S0 S1) as [R0 R1].
  pose proof (shr_fexp_exponent
                (round_nearest_even (shr_m mrs') (loc_of_shr_record mrs'))
                e' loc_Exact) as E2.
  destruct (shr_fexp _ _ (round_nearest_even _ _) e' loc_Exact)
    as [mrs'' e''].
  cbn [snd] in E2.
  destruct (shr_m mrs''); [reflexivity| |reflexivity].
  assert (L : (e'' <=? F64.emax - F64.prec) = true).
  { apply Z.leb_le. unfold F64.emax, F64.prec.
    change (Zdigits2 (Z.pos mx)) with (Z.pos (digits2_pos mx)) in E1.
    lia. }
  now rewrite L.
Qed.

Lemma binary_round_no_overflow sx mx :
  Zpos (digits2_pos mx) <= 64 ->
  is_infinity (binary_round F64.prec F64.emax sx mx 0) = false.
Proof.
  intros Hd. unfold binary_round, shl_align. rewrite fexp_64.
  destruct (_ - 0) eqn:E.
  - apply binary_round_aux_no_overflow; [exact Hd | lia].
  - apply binary_round_aux_no_overflow; [exact Hd | lia].
  - apply binary_round_aux_no_overflow; [rewrite digits2_pos_shift|]; lia.
Qed.

(** An int64 converts to a finite float. *)
Lemma of_Z_no_overflow z :
  in_int64 z = true -> is_infinity (F64.of_Z z) = false.
Proof.
  unfold in_int64, int64_min, int64_max. intros H.
  apply andb_prop in H as [H1 H2]. apply Z.leb_le in H1, H2.
  destruct z as [|p|p]; [reflexivity| |]; simpl;
    apply binary_round_no_overflow; apply digits2_pos_bound; lia.
Qed.

Close Scope Z_scope.

Lemma of_Z_not_pos_inf z :
  in_int64 z = true -> F64.of_Z z <> S754_infinity false.
Proof.
  intros H E. apply of_Z_no_overflow in H. rewrite E in H. discriminate.
Qed.

(** The largest value of a column that holds the positive infinity is the
    positive infinity. *)
Lemma nanmax_from_pos_inf l :
  nanmax_from (S754_infinity false) l = S754_infinity false.
Proof.
  induction l as [|x l IH]; simpl; [reflexivity|].
  destruct (F64.is_nan x); [exact IH|].
  destruct x as [s|[|]| |s m e]; exact IH.
Qed.

Lemma nanmax_from_in l : forall m,
  F64.is_nan m = false -> In (S754_infinity false) l ->
  nanmax_from m l = S754_infinity false.
Proof.
  induction l as [|x l IH]; simpl; intros m Hm H; [destruct H|].
  destruct H as [->|H].
  - simpl. destruct m as [s|[|]| |s m e]; try discriminate;
      apply nanmax_from_pos_inf.
  - destruct (F64.is_nan x) eqn:Ex; [now apply IH|].
    destruct (SFltb m x); now apply IH.
Qed.

Lemma nanmax_pos_inf l :
  In (S754_infinity false) l -> nanmax l = Some (S754_infinity false).
Proof.
  induction l as [|x l IH]; simpl; intros H; [destruct H|].
  destruct H as [->|H].
  - simpl. now rewrite nanmax_from_pos_inf.
  - destruct (F64.is_nan x) eqn:Ex; [now apply IH|].
    now rewrite nanmax_from_in.
Qed.

(** ** Frames *)

Lemma lookup_assign_eq c v cols : lookup c (assign c v cols) = Some v.
Proof.
  induction cols as [|[k w] r IH]; simpl.
  - now rewrite String.eqb_refl.
  - destruct (String.eqb k c) eqn:E; simpl; now rewrite E.
Qed.

Lemma lookup_assign_neq c c' v cols :
  c <> c' -> lookup c' (assign c v cols) = lookup c' cols.
Proof.
  intros Hne. induction cols as [|[k w] r IH]; simpl.
  - apply String.eqb_neq in Hne. now rewrite Hne.
  - destruct (String.eqb k c) eqn:E; simpl.
    + apply String.eqb_eq in E. subst k.
      apply String.eqb_neq in Hne. now rewrite Hne.
    + now rewrite IH.
Qed.

Lemma assign_assign c v1 v2 cols :
  assign c v2 (assign c v1 cols) = assign c v2 cols.
Proof.
  induction cols as [|[k w] r IH]; simpl.
  - now rewrite String.eqb_refl.
  - destruct (String.eqb k c) eqn:E; simpl; rewrite E; [reflexivity|].
    now rewrite IH.
Qed.

Lemma get_setitem_eq df c v : get (setitem df c v) c = Some v.
Proof. apply lookup_assign_eq. Qed.

Lemma get_setitem_neq df c c' v :
  c <> c' -> get (setitem df c v) c' = get df c'.
Proof. apply lookup_assign_neq. Qed.

Lemma lookup_not_in c cols : ~ In c (map fst cols) -> lookup c cols = None.
Proof.
  induction cols as [|[k w] r IH]; simpl; [reflexivity|].
  intros H. destruct (String.eqb k c) eqn:E.
  - apply String.eqb_eq in E. tauto.
  - apply IH. tauto.
Qed.

(** ** The error monad *)

Lemma bind_ok {A B : Type} (r : result A) (k : A -> result B) b :
  bind r k = Ok b -> exists a, r = Ok a /\ k a = Ok b.
Proof. destruct r; simpl; [eauto | discriminate]. Qed.

Lemma all_some_map_Some {A B : Type} (f : A -> B) l :
  all_some (map (fun a => Some (f a)) l) = Some (map f l).
Proof. induction l as [|a l IH]; simpl; [|rewrite IH]; reflexivity. Qed.

(** ** The unifier *)

Lemma unify_label_attack_inv df df2 :
  unify_label_attack df = Ok df2 ->
  exists labels,
    unified_labels df = Ok labels /\
    df2 = unified_input df labels.
Proof.
  unfold unify_label_attack. intros H.
  apply bind_ok in H. destruct H as (labels & Hl & H).
  exists labels. split; [exact Hl|].
  unfold unified_input, raw_categories.
  rewrite get_setitem_neq in H by discriminate.
  destruct (get df "attack_cat") as [s|] eqn:E.
  - unfold getitem in H. rewrite get_setitem_neq, E in H by discriminate.
    simpl in H. now injection H as <-.
  - unfold getitem in H. rewrite get_setitem_eq in H. simpl in H.
    injection H as <-. unfold setitem. cbn [index columns].
    now rewrite assign_assign.
Qed.

(** ** The mapper, inverted *)

Lemma unified_input_label df labels :
  getitem (unified_input df labels) "label" = Ok (Num (Int64Col labels)).
Proof.
  unfold getitem, unified_input.
  rewrite get_setitem_neq by discriminate. now rewrite get_setitem_eq.
Qed.

Lemma unified_input_attack_cat df labels :
  getitem (unified_input df labels) "attack_cat"
  = Ok (normalize_attack_cat (raw_categories df labels)).
Proof. unfold getitem, unified_input. now rewrite get_setitem_eq. Qed.

Lemma derive_inv df pre df2 :
  derive df = Ok (pre, df2) ->
  exists timestamp src_port dst_port duration
         bytes_out bytes_in pkts_out pkts_in labels,
    coerce_numeric (get df "stime") Dfloat = Ok timestamp /\
    coerce_numeric (get df "sport") DInt64 = Ok src_port /\
    coerce_numeric (get df "dsport") DInt64 = Ok dst_port /\
    coerce_numeric (get df "dur") Dfloat = Ok duration /\
    coerce_numeric (get df "sbytes") DInt64 = Ok bytes_out /\
    coerce_numeric (get df "dbytes") DInt64 = Ok bytes_in /\
    coerce_numeric (get df "spkts") DInt64 = Ok pkts_out /\
    coerce_numeric (get df "dpkts") DInt64 = Ok pkts_in /\
    unified_labels df = Ok labels /\
    df2 = unified_input df labels /\
    pre = derived_batch df timestamp src_port dst_port duration
            bytes_out bytes_in pkts_out pkts_in labels.
Proof.
  unfold derive. intros H.
  repeat (apply bind_ok in H; destruct H as (? & ? & H)).
  injection H as <- <-.
  match goal with
  | U : unify_label_attack df = Ok ?d |- _ =>
      apply unify_label_attack_inv in U; destruct U as (labels & Hl & ->)
  end.
  repeat match goal with
  | G : getitem (unified_input _ _) _ = Ok _ |- _ =>
      first [ rewrite unified_input_label in G
            | rewrite unified_input_attack_cat in G ];
      injection G as <-
  end.
  do 9 eexists. repeat (split; [eassumption|]).
  split; reflexivity.
Qed.

Lemma sanity_pass_derived df ts sp dp du bo bi po pi labels :
  sanity_pass (derived_batch df ts sp dp du bo bi po pi labels)
  = Ok (mapped_batch df ts sp dp du bo bi po pi labels).
Proof. reflexivity. Qed.

Lemma map_unsw_to_standard_inv df mapped df2 :
  map_unsw_to_standard df = Ok (mapped, df2) ->
  exists timestamp src_port dst_port duration
         bytes_out bytes_in pkts_out pkts_in labels,
    coerce_numeric (get df "stime") Dfloat = Ok timestamp /\
    coerce_numeric (get df "sport") DInt64 = Ok src_port /\
    coerce_numeric (get df "dsport") DInt64 = Ok dst_port /\
    coerce_numeric (get df "dur") Dfloat = Ok duration /\
    coerce_numeric (get df "sbytes") DInt64 = Ok bytes_out /\
    coerce_numeric (get df "dbytes") DInt64 = Ok bytes_in /\
    coerce_numeric (get df "spkts") DInt64 = Ok pkts_out /\
    coerce_numeric (get df "dpkts") DInt64 = Ok pkts_in /\
    unified_labels df = Ok labels /\
    df2 = unified_input df labels /\
    derive df = Ok (derived_batch df timestamp src_port dst_port duration
                      bytes_out bytes_in pkts_out pkts_in labels, df2) /\
    mapped = mapped_batch df timestamp src_port dst_port duration
               bytes_out bytes_in pkts_out pkts_in labels.
Proof.
  unfold map_unsw_to_standard. intros H.
  apply bind_ok in H. destruct H as ([pre d2] & Hd & H).
  pose proof Hd as Hd'.
  apply derive_inv in Hd.
  destruct Hd as (ts & sp & dp & du & bo & bi & po & pi & labels
                  & H1 & H2 & H3 & H4 & H5 & H6 & H7 & H8 & Hl & -> & ->).
  cbn [fst snd] in H. rewrite sanity_pass_derived in H.
  cbn [bind] in H. injection H as <- <-.
  exists ts, sp, dp, du, bo, bi, po, pi, labels.
  repeat (split; [assumption|]). split; [reflexivity|]. split; [exact Hd' | reflexivity].
Qed.

Lemma derive_ok_map_ok df pre df2 :
  derive df = Ok (pre, df2) ->
  exists mapped, sanity_pass pre = Ok mapped /\
                 map_unsw_to_standard df = Ok (mapped, df2).
Proof.
  intros H. pose proof H as H'. apply derive_inv in H'.
  destruct H' as (ts & sp & dp & du & bo & bi & po & pi & labels
                  & _ & _ & _ & _ & _ & _ & _ & _ & _ & -> & ->).
  eexists. split; [apply sanity_pass_derived|].
  unfold map_unsw_to_standard. rewrite H. reflexivity.
Qed.

(** ** Columns, cell by cell *)

Lemma zip_with_map {A B A' B' C : Type} (f : A' -> B' -> C)
    (g : A -> A') (h : B -> B') l1 l2 :
  zip_with f (map g l1) (map h l2) = zip_with (fun a b => f (g a) (h b)) l1 l2.
Proof.
  revert l2. induction l1 as [|a l1 IH]; intros [|b l2]; simpl;
    try reflexivity.
  now rewrite IH.
Qed.

(** [fillna(0).astype(float)] is the operand of the specification. *)
Lemma filled_float_cells c : filled_float c = map spec_operand (cells c).
Proof.
  destruct c as [l|l|l]; unfold filled_float; simpl; rewrite !map_map;
    apply map_ext; intros x.
  - reflexivity.
  - now destruct (F64.is_nan x).
  - now destruct x.
Qed.

Lemma totals_cells a b :
  totals a b = Float64Col (zip_with spec_total (cells a) (cells b)).
Proof.
  unfold totals. rewrite !filled_float_cells. now rewrite zip_with_map.
Qed.

Lemma cells_operand_not_nan c v :
  In v (cells c) -> F64.is_nan (spec_operand v) = false.
Proof.
  destruct c as [l|l|l]; simpl; rewrite in_map_iff; intros (x & <- & _).
  - apply of_Z_not_nan.
  - destruct (F64.is_nan x) eqn:E; [reflexivity | exact E].
  - destruct x; [apply of_Z_not_nan | reflexivity].
Qed.

Lemma spec_total_nan a b x y :
  In (x, y) (combine (cells a) (cells b)) ->
  F64.is_nan (spec_total x y)
  = opposite_infinities (spec_operand x) (spec_operand y).
Proof.
  intros H. apply add_nan.
  - apply in_combine_l in H. eapply cells_operand_not_nan; eassumption.
  - apply in_combine_r in H. eapply cells_operand_not_nan; eassumption.
Qed.

Lemma all_some_Forall2 {A : Type} (l : list (option A)) xs :
  all_some l = Some xs -> Forall2 (fun o x => o = Some x) l xs.
Proof.
  revert xs. induction l as [|[a|] l IH]; simpl; intros xs H.
  - injection H as <-. constructor.
  - destruct (all_some l) as [xs'|] eqn:E; [|discriminate].
    injection H as <-. constructor; [reflexivity | now apply IH].
  - discriminate.
Qed.

(** The cast to "Int64" of a float64 column that holds the positive
    infinity raises. *)
Lemma astype_Int64_pos_inf l :
  In (S754_infinity false) l ->
  astype_Int64 (Float64Col l) = Raise OverflowError.
Proof. intros H. simpl. now rewrite (nanmax_pos_inf l H). Qed.

(** What a successful cast to "Int64" returns. *)
Lemma astype_Int64_inv c r :
  astype_Int64 c = Ok r ->
  match c with
  | Int64Col l => r = NullableInt64Col (map Some l)
  | Float64Col l =>
      r = Float64Col l
      \/ exists zs, all_some (map safe_cast l) = Some zs
                    /\ r = NullableInt64Col zs
  | NullableInt64Col l => r = NullableInt64Col l
  end.
Proof.
  destruct c as [l|l|l]; simpl; try (intros [= <-]; reflexivity).
  assert (P : match all_some (map safe_cast l) with
              | Some zs => Ok (NullableInt64Col zs)
              | None => Ok (Float64Col l)
              end = Ok r ->
              r = Float64Col l
              \/ exists zs, all_some (map safe_cast l) = Some zs
                            /\ r = NullableInt64Col zs).
  { destruct (all_some (map safe_cast l)) as [zs|]; intros [= <-];
      [right; exists zs; split; reflexivity | left; reflexivity]. }
  destruct (nanmax l) as [m|]; [|exact P].
  destruct (negb (F64.is_finite m)); [discriminate|].
  destruct (is_integral m); [exact P|].
  destruct (existsb int_overflows l); [discriminate|].
  intros [= <-]. left; reflexivity.
Qed.

Lemma coerce_numeric_inv s d c :
  coerce_numeric s d = Ok c ->
  exists x, s = Some x
    /\ match d with
       | Dfloat => c = Float64Col (astype_float (to_numeric x))
       | DInt64 => astype_Int64 (to_numeric x) = Ok c
       end.
Proof.
  destruct s as [x|]; simpl; [|discriminate]. intros H. exists x. split;
    [reflexivity|].
  destruct d; [now injection H as <- | exact H].
Qed.

Lemma coerce_numeric_dtype s d c :
  coerce_numeric s d = Ok c -> coerced_dtype c.
Proof.
  intros H. apply coerce_numeric_inv in H as (x & -> & H).
  destruct d; [subst c; exact I|].
  apply astype_Int64_inv in H.
  destruct (to_numeric x) as [l|l|l]; [subst c; exact I| |subst c; exact I].
  destruct H as [->|(zs & _ & ->)]; exact I.
Qed.

Lemma geb0_ltb0 f : F64.is_nan f = false -> F64.geb0 f = negb (F64.ltb0 f).
Proof.
  destruct f as [s|s| |s m e]; try discriminate; intros _; destruct s;
    reflexivity.
Qed.

(** The loop nulls the negative cells and nothing else. *)
Lemma null_negative_num_cells c :
  coerced_dtype c ->
  cells (null_negative_num c) = map spec_sanity (cells c).
Proof.
  destruct c as [l|l|l]; simpl; [tauto| |]; intros _; rewrite !map_map;
    apply map_ext; intros x; unfold spec_sanity.
  - destruct (F64.is_nan x) eqn:E.
    + destruct x; try discriminate. reflexivity.
    + simpl. rewrite (geb0_ltb0 x E).
      destruct (F64.ltb0 x); simpl; [reflexivity | now rewrite E].
  - destruct x as [z|]; simpl; [|reflexivity].
    destruct (Z.ltb_spec z 0), (Z.leb_spec 0 z); try lia; reflexivity.
Qed.

Lemma spec_sanity_nonneg v : null_or_nonneg (spec_sanity v) = true.
Proof.
  unfold spec_sanity. destruct (null_or_nonneg v) eqn:E; [exact E | reflexivity].
Qed.

(** [fillna(0).astype(int)] is the label of the specification. *)
Lemma astype_int_cells c labels :
  astype_int (fillna_zero c) = Ok labels ->
  labels = map spec_label (cells c).
Proof.
  destruct c as [l|l|l]; simpl.
  - intros H. injection H as <-. now rewrite map_map, map_id.
  - destruct (forallb _ _); [|discriminate]. intros H. injection H as <-.
    rewrite !map_map. apply map_ext. intros f.
    destruct (F64.is_nan f); reflexivity.
  - rewrite (all_some_map_Some
               (fun o : option Z => match o with Some z => z | None => 0%Z end)).
    intros H. injection H as <-. rewrite map_map. apply map_ext.
    now intros [z|].
Qed.

(** ** The driver *)

Lemma path_eqb_refl p : path_eqb p p = true.
Proof.
  induction p as [|a p IH]; simpl; [reflexivity|].
  now rewrite String.eqb_refl.
Qed.

Lemma file_lookup_store p c fs : file_lookup p (file_store p c fs) = Some c.
Proof.
  induction fs as [|[q d] r IH]; simpl.
  - now rewrite path_eqb_refl.
  - destruct (path_eqb q p) eqn:E; simpl; now rewrite E.
Qed.

Lemma in_insert_sorted x p l : In x (insert_sorted p l) -> x = p \/ In x l.
Proof.
  induction l as [|q r IH]; simpl.
  - intros [<-|[]]. now left.
  - destruct (path_leb p q); simpl.
    + intros [<-|H]; auto.
    + intros [<-|H]; auto. destruct (IH H); auto.
Qed.

Lemma in_sorted x l : In x (sorted l) -> In x l.
Proof.
  induction l as [|p l IH]; simpl; [tauto|].
  intros H. apply in_insert_sorted in H. destruct H as [<-|H]; auto.
Qed.

Lemma names_clean_text chunk :
  map fst (columns (clean_text chunk)) = map fst (columns chunk).
Proof.
  unfold clean_text. simpl. rewrite map_map. apply map_ext.
  intros [k [c|l]]; reflexivity.
Qed.

Lemma names_replace_inf chunk :
  map fst (columns (replace_inf chunk)) = map fst (columns chunk).
Proof.
  unfold replace_inf. simpl. rewrite map_map. apply map_ext.
  intros [k [[l|l|l]|l]]; reflexivity.
Qed.

(** A batch read under the header has no service column, so the mapper
    fills the column with its default. *)
Lemma mapped_service chunk mapped df2 :
  map fst (columns chunk) = UNSW_HEADER ->
  map_unsw_to_standard chunk = Ok (mapped, df2) ->
  get mapped "service" = Some (Obj (repeat (OStr "unknown") (index mapped))).
Proof.
  intros Hn H. apply map_unsw_to_standard_inv in H.
  destruct H as (ts & sp & dp & du & bo & bi & po & pi & labels & H).
  destruct H as (_ & _ & _ & _ & _ & _ & _ & _ & _ & _ & _ & ->).
  assert (E : get chunk "service" = None).
  { apply lookup_not_in. rewrite Hn. simpl.
    intros H. repeat (destruct H as [H|H]; [discriminate|]). exact H. }
  unfold mapped_batch, standard_batch, get_or. rewrite E. reflexivity.
Qed.

(** A write that succeeds stores the old content, if the file is appended
    to, followed by the new block. *)
Lemma to_csv_inv batch p m h w w' :
  to_csv batch p m h w = Ok w' ->
  w' = {| dirs := dirs w;
          files := file_store p
                     (match m, file_lookup p (files w) with
                      | ModeA, Some c => c
                      | _, _ => []
                      end ++ [Block h batch]) (files w) |}.
Proof.
  unfold to_csv. destruct (_ || _); [discriminate|]. now intros [= <-].
Qed.

(** A chunk either stops the run, which leaves the state as it was, or is
    mapped and written. *)
Lemma process_chunk_inv a st chunk e st' :
  process_chunk a st chunk = (e, st') ->
  (e <> None /\ st' = st)
  \/ exists mapped df2 w,
       map_unsw_to_standard (replace_inf (clean_text chunk))
       = Ok (mapped, df2)
       /\ to_csv mapped (out a) (if first_write st then ModeW else ModeA)
            (first_write st) (world st) = Ok w
       /\ e = None
       /\ st' = {| first_write := false;
                   total_rows := total_rows st + index mapped;
                   world := w |}.
Proof.
  unfold process_chunk.
  destruct (map_unsw_to_standard _) as [[mapped df2]|ex] eqn:Hm.
  - destruct (to_csv _ _ _ _ _) as [w|ex] eqn:Hw.
    + intros [= <- <-]. right. exists mapped, df2, w. now repeat split.
    + intros [= <- <-]. left. now split.
  - intros [= <- <-]. left. now split.
Qed.

Lemma process_chunk_invariant a w0 st chunk e st' :
  map fst (columns chunk) = UNSW_HEADER ->
  output_invariant a w0 st ->
  process_chunk a st chunk = (e, st') ->
  output_invariant a w0 st'.
Proof.
  intros Hn Hinv H. apply process_chunk_inv in H.
  destruct H as [[_ ->]|(mapped & df2 & w & Hm & Hw & -> & ->)];
    [exact Hinv|].
  apply to_csv_inv in Hw. subst w.
  right. split; [reflexivity|].
  assert (Hs : service_unknown (Block (first_write st) mapped)).
  { exists (first_write st), mapped. split; [reflexivity|].
    eapply mapped_service; [|exact Hm].
    now rewrite names_replace_inf, names_clean_text. }
  cbn [world files]. rewrite file_lookup_store.
  eexists. split; [reflexivity|].
  apply Forall_app. split; [|now constructor].
  destruct Hinv as [[-> _] | [-> (content & -> & Hc)]];
    [constructor | exact Hc].
Qed.

Lemma process_chunks_invariant a w0 chunks : forall st e st',
  Forall (fun chunk => map fst (columns chunk) = UNSW_HEADER) chunks ->
  output_invariant a w0 st ->
  process_chunks a st chunks = (e, st') ->
  output_invariant a w0 st'.
Proof.
  induction chunks as [|chunk rest IH]; simpl; intros st e st' Hn Hinv H.
  - now injection H as <- <-.
  - inversion Hn as [|? ? Hc Hr]; subst.
    destruct (process_chunk a st chunk) as [[ex|] st1] eqn:E.
    + injection H as <- <-. eapply process_chunk_invariant; eassumption.
    + eapply IH; [exact Hr| |exact H].
      eapply process_chunk_invariant; eassumption.
Qed.

Section Reader.

(** [read_csv] names the columns of every chunk as it is told. *)
Hypothesis read_csv_names : forall w p names n,
  Forall (fun chunk => map fst (columns chunk) = names)
         (fst (read_csv w p names n)).

Lemma process_file_invariant a w0 st fp e st' :
  output_invariant a w0 st ->
  process_file a st fp = (e, st') ->
  output_invariant a w0 st'.
Proof.
  intros Hinv. unfold process_file.
  pose proof (read_csv_names (world st) fp UNSW_HEADER (chunksize a)) as Hn.
  destruct (read_csv _ _ _ _) as [chunks err]. simpl in Hn.
  destruct (process_chunks a st chunks) as [[ex|] st1] eqn:E; intros H;
    injection H as <- <-;
    eapply process_chunks_invariant; eassumption.
Qed.

Lemma process_files_invariant a w0 fps : forall st e st',
  output_invariant a w0 st ->
  process_files a st fps = (e, st') ->
  output_invariant a w0 st'.
Proof.
  induction fps as [|fp rest IH]; simpl; intros st e st' Hinv H.
  - now injection H as <- <-.
  - destruct (process_file a st fp) as [[ex|] st1] eqn:E.
    + injection H as <- <-. eapply process_file_invariant; eassumption.
    + eapply IH; [|exact H]. eapply process_file_invariant; eassumption.
Qed.

End Reader.

(** ** Row counts *)

Lemma all_ints_length ns zs :
  all_ints ns = Some zs -> List.length zs = List.length ns.
Proof.
  revert zs. induction ns as [|[z|f] ns IH]; simpl; intros zs H.
  - now injection H as <-.
  - destruct (all_ints ns) as [zs'|]; [|discriminate].
    injection H as <-. simpl. now rewrite (IH zs').
  - discriminate.
Qed.

Lemma all_some_length {A : Type} (l : list (option A)) xs :
  all_some l = Some xs -> List.length xs = List.length l.
Proof.
  revert xs. induction l as [|[a|] l IH]; simpl; intros xs H.
  - now injection H as <-.
  - destruct (all_some l) as [xs'|]; [|discriminate].
    injection H as <-. simpl. now rewrite (IH xs').
  - discriminate.
Qed.

Lemma to_numeric_len s : numcol_len (to_numeric s) = series_len s.
Proof.
  destruct s as [c|l]; simpl; [reflexivity|].
  destruct (all_ints (map obj_to_num l)) as [zs|] eqn:E; simpl.
  - apply all_ints_length in E. now rewrite E, length_map.
  - now rewrite !length_map.
Qed.

Lemma coerce_numeric_len s d c :
  coerce_numeric (Some s) d = Ok c -> numcol_len c = series_len s.
Proof.
  intros H. apply coerce_numeric_inv in H as (x & [= <-] & H).
  rewrite <- to_numeric_len.
  destruct d.
  - subst c. destruct (to_numeric s) as [l|l|l]; simpl;
      now rewrite ?length_map.
  - apply astype_Int64_inv in H.
    destruct (to_numeric s) as [l|l|l]; simpl.
    + subst c. simpl. now rewrite length_map.
    + destruct H as [->|(zs & E & ->)]; [reflexivity|]. simpl.
      apply all_some_length in E. now rewrite E, length_map.
    + now subst c.
Qed.

Lemma cells_length c : List.length (cells c) = numcol_len c.
Proof. destruct c; simpl; apply length_map. Qed.

Lemma zip_with_length {A B C : Type} (f : A -> B -> C) l1 l2 :
  List.length l1 = List.length l2 ->
  List.length (zip_with f l1 l2) = List.length l1.
Proof.
  revert l2. induction l1 as [|a l1 IH]; intros [|b l2]; simpl;
    try discriminate; [reflexivity|].
  intros H. injection H as H. now rewrite IH.
Qed.

Lemma wf_frame_get df c s :
  wf_frame df -> get df c = Some s -> series_len s = index df.
Proof.
  unfold wf_frame, get. generalize (index df). intros n.
  induction (columns df) as [|[k v] r IH]; simpl; [discriminate|].
  intros Hwf. inversion Hwf as [|? ? Hv Hr]; subst.
  destruct (String.eqb k c); [|now apply IH].
  intros H. now injection H as <-.
Qed.

(** A coerced column has one cell for each row of the batch. *)
Lemma coerced_cells_length df c d col :
  wf_frame df -> coerce_numeric (get df c) d = Ok col ->
  List.length (cells col) = index df.
Proof.
  intros Hwf H. destruct (get df c) as [s|] eqn:E; [|discriminate].
  rewrite cells_length, (coerce_numeric_len s d col H).
  eapply wf_frame_get; eassumption.
Qed.

(** ** Text columns *)

Lemma astype_str_strings s : Forall (fun o => exists x, o = OStr x) (astype_str s).
Proof.
  destruct s as [[l|l|l]|l]; simpl; apply Forall_map, Forall_forall;
    intros x _; eauto.
Qed.

(** The chain of [normalize_attack_cat], cell by cell. *)
Lemma normalize_attack_cat_cells s :
  normalize_attack_cat s = Obj (map normalize_obj (astype_str s)).
Proof.
  unfold normalize_attack_cat, fillna_obj, replace, str_method.
  rewrite !map_map. f_equal. apply map_ext. now intros [x| |].
Qed.

Lemma normalize_str_not_raw s :
  normalize_str s <> "normal" /\ normalize_str s <> "nan".
Proof.
  unfold normalize_str. simpl.
  destruct (lower (strip s) =? "normal")%string eqn:E1;
    [split; discriminate|].
  destruct (lower (strip s) =? "nan")%string eqn:E2; [split; discriminate|].
  apply String.eqb_neq in E1, E2. now split.
Qed.

Lemma normalize_obj_string o :
  exists s, normalize_obj o = OStr s /\ strip s = s /\ lower s = s /\
            s <> "normal" /\ s <> "nan".
Proof.
  destruct o as [x| |]; simpl.
  - exists (normalize_str x). split; [reflexivity|].
    split; [apply normalize_str_trimmed|].
    split; [apply normalize_str_lower | apply normalize_str_not_raw].
  - exists "benign". repeat split; discriminate.
  - exists "benign". repeat split; discriminate.
Qed.

Lemma lower_obj_is_lower o : is_lower_str (lower_obj o).
Proof.
  destruct o as [s| |]; eexists; (split; [reflexivity|]);
    [apply lower_idem | reflexivity | reflexivity].
Qed.

(** [.astype(str).str.lower()], cell by cell, on an object column. *)
Lemma lower_astype_str_obj l :
  str_method lower (astype_str (Obj l)) = map lower_obj l.
Proof.
  unfold str_method. simpl. rewrite map_map. apply map_ext.
  now intros [s| |].
Qed.

Lemma lower_astype_str_lower s :
  Forall is_lower_str (str_method lower (astype_str s)).
Proof.
  unfold str_method. apply Forall_map.
  eapply Forall_impl; [|apply astype_str_strings].
  intros o (x & ->). exists (lower x). split; [reflexivity | apply lower_idem].
Qed.

Lemma map_repeat {A B : Type} (f : A -> B) a n :
  map f (repeat a n) = repeat (f a) n.
Proof. induction n as [|n IH]; simpl; [|rewrite IH]; reflexivity. Qed.

(** ** Eligible files *)

Lemma eligible_nil w a :
  forallb (fun f => contains "feature" (lower (name f)))
          (glob w (input_dir a) (pattern a)) = true ->
  eligible w a = [].
Proof.
  intros H. unfold eligible.
  rewrite forallb_forall in H.
  destruct (filter _ _) as [|f r] eqn:E; [reflexivity|].
  assert (Hin : In f (f :: r)) by now left.
  rewrite <- E in Hin. apply filter_In in Hin. destruct Hin as [Hin Hf].
  apply in_sorted in Hin. rewrite (H f Hin) in Hf. discriminate.
Qed.

(** ** Integers within the range *)

Lemma int64_frame_get df c s :
  int64_frame df = true -> get df c = Some s -> int64_series s = true.
Proof.
  unfold int64_frame, get. induction (columns df) as [|[k v] r IH]; simpl;
    [discriminate|].
  intros H. apply andb_prop in H as [Hv Hr].
  destruct (String.eqb k c); [now intros [= <-] | now apply IH].
Qed.

Lemma all_ints_int64 ns zs :
  all_ints ns = Some zs -> forallb in_int64 zs = true.
Proof.
  revert zs. induction ns as [|[i|f] ns IH]; simpl; intros zs H.
  - now injection H as <-.
  - destruct (all_ints ns) as [zs'|]; [|discriminate].
    injection H as <-. simpl. now rewrite (to_Z_range i), (IH zs').
  - discriminate.
Qed.

(** The parser yields int64 values, so [to_numeric] keeps the range. *)
Lemma to_numeric_int64 s :
  int64_series s = true -> int64_numcol (to_numeric s) = true.
Proof.
  destruct s as [c|l]; simpl; [auto|]. intros _.
  destruct (all_ints (map obj_to_num l)) as [zs|] eqn:E; [|reflexivity].
  simpl. eapply all_ints_int64; exact E.
Qed.

Lemma float_to_int64_range f : in_int64 (float_to_int64 f) = true.
Proof.
  unfold float_to_int64.
  destruct (F64.is_finite f && in_int64 (F64.trunc f)) eqn:E.
  - now apply andb_prop in E.
  - apply to_Z_range.
Qed.

Lemma spec_label_range c v :
  int64_numcol c = true -> In v (cells c) -> in_int64 (spec_label v) = true.
Proof.
  destruct c as [l|l|l]; simpl; intros H Hv; apply in_map_iff in Hv;
    destruct Hv as (x & <- & Hx).
  - rewrite forallb_forall in H. now apply H.
  - destruct (F64.is_nan x); [reflexivity | apply float_to_int64_range].
  - rewrite forallb_forall in H. specialize (H x Hx).
    destruct x; [exact H | reflexivity].
Qed.

(** No operand of a total is the positive infinity: the cast to "Int64"
    raises on a column that holds it, and an int64 is a finite float. *)
Lemma astype_Int64_operand n c v :
  int64_numcol n = true -> astype_Int64 n = Ok c -> In v (cells c) ->
  spec_operand v <> S754_infinity false.
Proof.
  intros Hn H Hv. pose proof H as H'. apply astype_Int64_inv in H.
  destruct n as [l|l|l].
  - subst c. simpl in *. rewrite map_map in Hv. apply in_map_iff in Hv.
    destruct Hv as (z & <- & Hz). simpl. apply of_Z_not_pos_inf.
    rewrite forallb_forall in Hn. now apply Hn.
  - destruct H as [->|(zs & Es & ->)]; simpl in Hv; apply in_map_iff in Hv;
      destruct Hv as (x & <- & Hx).
    + destruct (F64.is_nan x) eqn:Ex; [discriminate|]. simpl.
      intros ->. rewrite (astype_Int64_pos_inf l Hx) in H'. discriminate.
    + destruct x as [z|]; [|discriminate]. simpl.
      apply of_Z_not_pos_inf.
      destruct (In_nth_error _ _ Hx) as (i & Hi).
      apply all_some_Forall2 in Es.
      assert (G : forall (fs : list (option (option Z))) ys j,
                Forall2 (fun o y => o = Some y) fs ys ->
                nth_error ys j = Some (Some z) ->
                In (Some (Some z)) fs).
      { clear. intros fs ys j F. revert j.
        induction F as [|o y fs ys E F IH]; intros [|j]; simpl;
          try discriminate.
        - intros [= ->]. now left.
        - intros Hj. right. eapply IH; exact Hj. }
      pose proof (G _ _ _ Es Hi) as Hin. apply in_map_iff in Hin.
      destruct Hin as (f & Hf & _). unfold safe_cast in Hf.
      destruct (F64.is_nan f); [discriminate|].
      destruct (F64.eqb _ f); [|discriminate].
      injection Hf as <-. apply float_to_int64_range.
  - subst c. simpl in *. apply in_map_iff in Hv.
    destruct Hv as (x & <- & Hx). rewrite forallb_forall in Hn.
    specialize (Hn x Hx). destruct x; [|discriminate]. simpl.
    now apply of_Z_not_pos_inf.
Qed.

Lemma coerced_operand df k c v :
  int64_frame df = true -> coerce_numeric (get df k) DInt64 = Ok c ->
  In v (cells c) -> spec_operand v <> S754_infinity false.
Proof.
  intros Hi H. apply coerce_numeric_inv in H as (s & Hs & H).
  apply astype_Int64_operand with (n := to_numeric s); [|exact H].
  apply to_numeric_int64. eapply int64_frame_get; eassumption.
Qed.

Lemma opposite_infinities_pos a b :
  opposite_infinities a b = true ->
  a = S754_infinity false \/ b = S754_infinity false.
Proof.
  destruct a as [s|[|]| |s m e], b as [t|[|]| |t n f]; simpl;
    try discriminate; auto.
Qed.

(** The sum of two columns without the positive infinity has no NaN. *)
Lemma totals_not_nan a b :
  (forall v, In v (cells a) -> spec_operand v <> S754_infinity false) ->
  (forall v, In v (cells b) -> spec_operand v <> S754_infinity false) ->
  Forall (fun total => F64.is_nan total = false)
         (zip_with spec_total (cells a) (cells b)).
Proof.
  intros Ha Hb.
  assert (G : forall l1 l2,
            (forall x y, In (x, y) (combine l1 l2) ->
                         F64.is_nan (spec_total x y) = false) ->
            Forall (fun total => F64.is_nan total = false)
                   (zip_with spec_total l1 l2)).
  { induction l1 as [|x l1 IH]; intros [|y l2] H; simpl; constructor.
    - apply H. now left.
    - apply IH. intros x' y' Hin. apply H. now right. }
  apply G. intros x y Hin. rewrite (spec_total_nan a b x y Hin).
  destruct (opposite_infinities _ _) eqn:E; [|reflexivity].
  apply opposite_infinities_pos in E. destruct E as [E|E].
  - apply in_combine_l in Hin. now apply Ha in Hin.
  - apply in_combine_r in Hin. now apply Hb in Hin.
Qed.

(** ** The claims *)

(** C1 (as amended).  The scenario row -- srcip 10.0.0.1, sport 80, dstip
    10.0.0.2, dsport 443, proto TCP, state FIN, dur 1.5, sbytes 500,
    dbytes -20, spkts 5, dpkts 3, stime 1000000, no label column,
    attack_cat Normal -- is mapped to timestamp 1000000.0, src_ip
    10.0.0.1, src_port 80, dst_ip 10.0.0.2, dst_port 443, proto tcp,
    duration 1.5, bytes_out 500, bytes_in null, pkts_out 5, pkts_in 3,
    flow_bytes_total 480.0 (the sum is taken before the negative dbytes is
    nulled), flow_pkts_total 8.0, state fin, service unknown, label 0,
    attack_cat benign, dataset UNSW-NB15. *)
Theorem scenario_row :
  map_unsw_to_standard scenario
  = Ok (scenario_mapped, unified_input scenario [0%Z]).
Proof. vm_compute. reflexivity. Qed.

(** C2.  For every batch the mapper accepts, the totals of the derivation
    step are float64 columns whose rows are the sums of the coerced
    counters before the sanity pass, a null counter counting as zero, and
    no total is NaN (null) at that step: a counter column that holds the
    positive infinity does not get through the cast to "Int64", so no sum
    is of two infinities of opposite sign.  A batch whose columns all have
    one cell for each row gets one total for each row. *)
Theorem totals_consistency df mapped df2 :
  int64_frame df = true ->
  map_unsw_to_standard df = Ok (mapped, df2) ->
  exists pre bytes_out bytes_in pkts_out pkts_in,
    derive df = Ok (pre, df2) /\
    sanity_pass pre = Ok mapped /\
    coerce_numeric (get df "sbytes") DInt64 = Ok bytes_out /\
    coerce_numeric (get df "dbytes") DInt64 = Ok bytes_in /\
    coerce_numeric (get df "spkts") DInt64 = Ok pkts_out /\
    coerce_numeric (get df "dpkts") DInt64 = Ok pkts_in /\
    get pre "bytes_out" = Some (Num bytes_out) /\
    get pre "bytes_in" = Some (Num bytes_in) /\
    get pre "pkts_out" = Some (Num pkts_out) /\
    get pre "pkts_in" = Some (Num pkts_in) /\
    get pre "flow_bytes_total"
    = Some (Num (Float64Col
                   (zip_with spec_total (cells bytes_out) (cells bytes_in)))) /\
    get pre "flow_pkts_total"
    = Some (Num (Float64Col
                   (zip_with spec_total (cells pkts_out) (cells pkts_in)))) /\
    Forall (fun total => F64.is_nan total = false)
           (zip_with spec_total (cells bytes_out) (cells bytes_in)) /\
    Forall (fun total => F64.is_nan total = false)
           (zip_with spec_total (cells pkts_out) (cells pkts_in)) /\
    (wf_frame df ->
       List.length (zip_with spec_total (cells bytes_out) (cells bytes_in))
       = index df /\
       List.length (zip_with spec_total (cells pkts_out) (cells pkts_in))
       = index df).
Proof.
  intros Hi H. apply map_unsw_to_standard_inv in H.
  destruct H as (ts & sp & dp & du & bo & bi & po & pi & labels & H).
  destruct H as (_ & _ & _ & _ & H5 & H6 & H7 & H8 & _ & _ & Hd & ->).
  exists (derived_batch df ts sp dp du bo bi po pi labels), bo, bi, po, pi.
  split; [exact Hd|]. split; [apply sanity_pass_derived|].
  do 4 (split; [assumption|]).
  do 4 (split; [reflexivity|]).
  split; [|split; [|split; [|split]]].
  - cbn. now rewrite totals_cells.
  - cbn. now rewrite totals_cells.
  - apply totals_not_nan; intros v;
      [apply (coerced_operand df "sbytes") | apply (coerced_operand df "dbytes")];
      assumption.
  - apply totals_not_nan; intros v;
      [apply (coerced_operand df "spkts") | apply (coerced_operand df "dpkts")];
      assumption.
  - intros Hwf.
    pose proof (coerced_cells_length df _ _ _ Hwf H5) as L5.
    pose proof (coerced_cells_length df _ _ _ Hwf H6) as L6.
    pose proof (coerced_cells_length df _ _ _ Hwf H7) as L7.
    pose proof (coerced_cells_length df _ _ _ Hwf H8) as L8.
    split; rewrite zip_with_length; congruence.
Qed.

(** C3.  The header the script declares, and hands to [read_csv] as the
    column names of every file, has 46 names, not the 49 its comment
    announces: the fields sloss, dloss and service of the UNSW-NB15 layout
    are not in it. *)
Theorem UNSW_HEADER_has_46_names :
  List.length UNSW_HEADER = 46 /\
  existsb (String.eqb "sloss") UNSW_HEADER = false /\
  existsb (String.eqb "dloss") UNSW_HEADER = false /\
  existsb (String.eqb "service") UNSW_HEADER = false.
Proof. repeat split. Qed.

(** C4 (as amended).  For every batch the mapper accepts, the label column
    of the output is an int64 column, so every label is an integer of the
    int64 range and none is null: a raw label is cast to an integer and a
    missing or unparseable one counts as 0; without a raw label column
    every label is 0; and the label is 0 or 1 wherever the raw label is 0,
    1 or missing. *)
Theorem label_is_integer df mapped df2 :
  int64_frame df = true ->
  map_unsw_to_standard df = Ok (mapped, df2) ->
  exists labels,
    get mapped "label" = Some (Num (Int64Col labels)) /\
    Forall (fun z => in_int64 z = true) labels /\
    (forall raw, get df "label" = Some raw ->
       labels = map spec_label (cells (to_numeric raw))) /\
    (get df "label" = None -> labels = repeat 0%Z (index df)) /\
    (forall raw, get df "label" = Some raw ->
       Forall (fun v => v = VNull \/ v = VInt 0 \/ v = VInt 1 \/
                        v = VFloat (F64.of_Z 0) \/ v = VFloat (F64.of_Z 1))
              (cells (to_numeric raw)) ->
       Forall (fun z => z = 0%Z \/ z = 1%Z) labels).
Proof.
  intros Hi H. apply map_unsw_to_standard_inv in H.
  destruct H as (ts & sp & dp & du & bo & bi & po & pi & labels & H).
  destruct H as (_ & _ & _ & _ & _ & _ & _ & _ & Hl & _ & _ & ->).
  exists labels. split; [reflexivity|].
  unfold unified_labels in Hl.
  assert (Hraw : forall raw, get df "label" = Some raw ->
                   labels = map spec_label (cells (to_numeric raw))).
  { intros raw E. rewrite E in Hl. now apply astype_int_cells. }
  split; [|split; [exact Hraw|split]].
  - destruct (get df "label") as [raw|] eqn:E.
    + rewrite (Hraw raw eq_refl). apply Forall_map, Forall_forall.
      intros v Hv. eapply spec_label_range; [|exact Hv].
      apply to_numeric_int64. eapply int64_frame_get; eassumption.
    + injection Hl as <-. apply Forall_forall. intros z Hz.
      apply repeat_spec in Hz. now subst z.
  - intros E. rewrite E in Hl. now injection Hl as <-.
  - intros raw E Hv. rewrite (Hraw raw E). apply Forall_map.
    eapply Forall_impl; [|exact Hv].
    intros v [->|[->|[->|[->| ->]]]]; vm_compute; auto.
Qed.

(** C5 (as amended).  For every batch the mapper accepts, every attack
    category of the output is a trimmed, lower-cased string, which may be
    empty and is never "normal" or "nan": a raw category is stripped and
    lower-cased, and "normal", "nan" and a missing value (NaN, which
    [astype(str)] prints as "nan") become "benign"; without a raw category
    column the category is "attack" where the label is 1 and "benign"
    elsewhere. *)
Theorem attack_cat_is_normalized df mapped df2 :
  map_unsw_to_standard df = Ok (mapped, df2) ->
  exists cats,
    get mapped "attack_cat" = Some (Obj cats) /\
    Forall (fun o => exists s, o = OStr s /\ strip s = s /\ lower s = s /\
                               s <> "normal" /\ s <> "nan") cats /\
    (forall raw, get df "attack_cat" = Some raw ->
       cats = map normalize_obj (astype_str raw)) /\
    (forall s, lower (strip s) = "normal" \/ lower (strip s) = "nan" ->
       normalize_str s = "benign") /\
    (forall l, get df "attack_cat" = Some (Obj l) ->
       cats = map (fun o => OStr (match o with
                                  | OStr s => normalize_str s
                                  | ONaN => "benign"
                                  | ONA => "<na>"
                                  end)) l) /\
    (forall l, get df "attack_cat" = Some (Num (Float64Col l)) ->
       cats = map (fun f => OStr (if F64.is_nan f then "benign"
                                  else normalize_str (str_of_float f))) l) /\
    (get df "attack_cat" = None ->
       exists labels,
         get mapped "label" = Some (Num (Int64Col labels)) /\
         cats = map (fun z => OStr (if (z =? 1)%Z then "attack" else "benign"))
                    labels).
Proof.
  intros H. apply map_unsw_to_standard_inv in H.
  destruct H as (ts & sp & dp & du & bo & bi & po & pi & labels & H).
  destruct H as (_ & _ & _ & _ & _ & _ & _ & _ & _ & _ & _ & ->).
  exists (map normalize_obj (astype_str (raw_categories df labels))).
  split; [cbn; now rewrite normalize_attack_cat_cells|].
  split; [apply Forall_map, Forall_forall; intros o _;
          apply normalize_obj_string|].
  split; [intros raw E; unfold raw_categories; now rewrite E|].
  split; [intros s [E|E]; unfold normalize_str; now rewrite E|].
  split; [intros l E; unfold raw_categories; rewrite E; simpl;
          rewrite map_map; apply map_ext; now intros [s| |]|].
  split; [intros l E; unfold raw_categories; rewrite E; simpl;
          rewrite map_map; apply map_ext;
          now intros [s|s| |s m e]|].
  intros E. exists labels. split; [reflexivity|].
  unfold raw_categories. rewrite E. unfold np_where. simpl.
  rewrite !map_map. apply map_ext. intros z. now destruct (z =? 1)%Z.
Qed.

(** C6 (as amended).  For every batch the mapper accepts, the proto and
    state columns of the output hold lower-cased strings in every row and
    never the null marker: a present value is lower-cased, a missing one
    (NaN, in an object or a float64 column) is the string "nan", and when
    the source column is absent every row holds the string "<na>". *)
Theorem proto_state_are_strings df mapped df2 :
  map_unsw_to_standard df = Ok (mapped, df2) ->
  exists protos states,
    get mapped "proto" = Some (Obj protos) /\
    get mapped "state" = Some (Obj states) /\
    Forall is_lower_str protos /\
    Forall is_lower_str states /\
    (forall l, get df "proto" = Some (Obj l) -> protos = map lower_obj l) /\
    (forall l, get df "state" = Some (Obj l) -> states = map lower_obj l) /\
    (forall l, get df "proto" = Some (Num (Float64Col l)) ->
       protos = map (fun f => OStr (if F64.is_nan f then "nan"
                                    else lower (str_of_float f))) l) /\
    (forall l, get df "state" = Some (Num (Float64Col l)) ->
       states = map (fun f => OStr (if F64.is_nan f then "nan"
                                    else lower (str_of_float f))) l) /\
    (get df "proto" = None -> protos = repeat (OStr "<na>") (index df)) /\
    (get df "state" = None -> states = repeat (OStr "<na>") (index df)).
Proof.
  intros H. apply map_unsw_to_standard_inv in H.
  destruct H as (ts & sp & dp & du & bo & bi & po & pi & labels & H).
  destruct H as (_ & _ & _ & _ & _ & _ & _ & _ & _ & _ & _ & ->).
  do 2 eexists. split; [reflexivity|]. split; [reflexivity|].
  split; [apply lower_astype_str_lower|].
  split; [apply lower_astype_str_lower|].
  unfold get_or.
  repeat split; intros;
    match goal with E : get df _ = _ |- _ => rewrite E end;
    first [ rewrite lower_astype_str_obj;
            first [ reflexivity | now rewrite map_repeat ]
          | unfold str_method; simpl; rewrite map_map; apply map_ext;
            now intros [s|s| |s m e] ].
Qed.

(** C7.  For every batch whose derivation completes, the sanity pass that
    follows completes too and the mapper returns its result: the batch
    keeps its index, and each of the seven constrained columns keeps its
    rows, a cell below zero being replaced by the null and every other
    cell left as it is, so that every cell is null or not below zero. *)
Theorem sanity_pass_non_negative df pre df2 :
  derive df = Ok (pre, df2) ->
  exists mapped,
    sanity_pass pre = Ok mapped /\
    map_unsw_to_standard df = Ok (mapped, df2) /\
    index mapped = index df /\
    forall c, In c NONNEG_COLS ->
      exists before after,
        get pre c = Some (Num before) /\
        get mapped c = Some (Num after) /\
        cells after = map spec_sanity (cells before) /\
        Forall (fun v => null_or_nonneg v = true) (cells after).
Proof.
  intros H. destruct (derive_ok_map_ok df pre df2 H) as (mapped & Hs & Hm).
  exists mapped. split; [exact Hs|]. split; [exact Hm|].
  apply map_unsw_to_standard_inv in Hm.
  destruct Hm as (ts & sp & dp & du & bo & bi & po & pi & labels & Hm).
  destruct Hm as (H1 & _ & _ & H4 & H5 & H6 & H7 & H8 & _ & _ & Hd & ->).
  rewrite H in Hd. injection Hd as ->.
  split; [reflexivity|].
  assert (Hc : forall before, coerced_dtype before ->
            cells (null_negative_num before) = map spec_sanity (cells before) /\
            Forall (fun v => null_or_nonneg v = true)
                   (cells (null_negative_num before))).
  { intros before Hb. rewrite (null_negative_num_cells before Hb).
    split; [reflexivity|]. apply Forall_map, Forall_forall.
    intros v _. apply spec_sanity_nonneg. }
  intros c Hin. simpl in Hin.
  destruct Hin as [<-|[<-|[<-|[<-|[<-|[<-|[<-|[]]]]]]]];
    do 2 eexists; (split; [reflexivity|]); (split; [reflexivity|]);
    apply Hc; try exact I;
    eapply coerce_numeric_dtype; eassumption.
Qed.

(** C8.  When the pattern matches no file, or every match has "feature"
    in its name, the driver stops with [SystemExit] and a message; the
    file system is as it was: no directory made, no file created,
    truncated or written. *)
Theorem no_eligible_file_fails_fast a w :
  forallb (fun f => contains "feature" (lower (name f)))
          (glob w (input_dir a) (pattern a)) = true ->
  main a w
  = (Some (SystemExit ("No UNSW-NB15 CSV files found in "
                         ++ str_of_path (input_dir a))), w).
Proof.
  intros H. unfold main. now rewrite (eligible_nil w a H).
Qed.

(** C9 (as amended).  For every batch the mapper accepts, the input batch
    keeps its index and every column other than label and attack_cat;
    these two are overwritten in place (or added, when absent) by the
    unified label and category columns, which are the ones of the
    output. *)
Theorem mapper_overwrites_label_and_category df mapped df2 :
  map_unsw_to_standard df = Ok (mapped, df2) ->
  index df2 = index df /\
  (forall c, c <> "label" -> c <> "attack_cat" -> get df2 c = get df c) /\
  get df2 "label" = get mapped "label" /\
  get df2 "attack_cat" = get mapped "attack_cat" /\
  (exists labels, get df2 "label" = Some (Num (Int64Col labels))) /\
  (exists cats, get df2 "attack_cat" = Some (Obj cats)).
Proof.
  intros H. apply map_unsw_to_standard_inv in H.
  destruct H as (ts & sp & dp & du & bo & bi & po & pi & labels & H).
  destruct H as (_ & _ & _ & _ & _ & _ & _ & _ & _ & -> & _ & ->).
  pose proof (unified_input_label df labels) as Hl.
  pose proof (unified_input_attack_cat df labels) as Hc.
  unfold getitem in Hl, Hc.
  destruct (get (unified_input df labels) "label") as [sl|] eqn:El;
    [|discriminate].
  destruct (get (unified_input df labels) "attack_cat") as [sc|] eqn:Ec;
    [|discriminate].
  injection Hl as ->. injection Hc as ->.
  split; [reflexivity|]. split.
  - intros c H1 H2. unfold unified_input.
    rewrite !get_setitem_neq by congruence. reflexivity.
  - split; [reflexivity|]. split; [reflexivity|].
    split; [now eexists|].
    rewrite normalize_attack_cat_cells. now eexists.
Qed.

(** C10.  Whenever [read_csv] names the columns of its chunks as it is
    told, the output file of a run is either as the run found it (nothing
    was written) or made of batches of the run only, and every row of
    their service column is the string "unknown": the header the chunks
    are read under has no service field. *)
Theorem service_is_unknown a w e w' :
  (forall w p names n,
     Forall (fun chunk => map fst (columns chunk) = names)
            (fst (read_csv w p names n))) ->
  main a w = (e, w') ->
  forall content,
    file_lookup (out a) (files w') = Some content ->
    file_lookup (out a) (files w) = Some content \/
    Forall service_unknown content.
Proof.
  intros Hr. unfold main.
  destruct (eligible w a) as [|fp fps].
  - intros H. injection H as <- <-. now left.
  - unfold mkdir.
    destruct (existsb _ _).
    + intros H. injection H as <- <-. now left.
    + destruct (process_files a _ (fp :: fps)) as [e1 st] eqn:E.
      intros H. injection H as <- <-.
      apply (process_files_invariant Hr a w) in E.
      * intros content Hc.
        destruct E as [[_ E] | [_ (c & E & Hf)]]; rewrite E in Hc.
        -- now left.
        -- injection Hc as <-. now right.
      * left. split; reflexivity.
Qed.

(** ** More about the coercion *)



Lemma all_some_none {A : Type} (l : list (option A)) :
  In None l -> all_some l = None.
Proof.
  induction l as [|[a|] l IH]; simpl; [tauto| |reflexivity].
  intros [H|H]; [discriminate|]. now rewrite IH.
Qed.



Lemma safe_cast_same f o :
  safe_cast f = Some o ->
  same_number (if F64.is_nan f then VNull else VFloat f)
              (match o with Some z => VInt z | None => VNull end).
Proof.
  unfold safe_cast. destruct (F64.is_nan f) eqn:En.
  - intros H. injection H as <-. exact I.
  - destruct (F64.eqb _ f) eqn:Ee; [|discriminate].
    intros H. injection H as <-. exact Ee.
Qed.

Lemma same_number_refl_cells c : Forall2 same_number (cells c) (cells c).
Proof.
  assert (R : forall l : list value,
             Forall (fun v => same_number v v) l -> Forall2 same_number l l).
  { induction 1; constructor; auto. }
  apply R. destruct c as [l|l|l]; simpl; apply Forall_map, Forall_forall;
    intros x _.
  - reflexivity.
  - now destruct (F64.is_nan x).
  - now destruct x.
Qed.

(** X2.  A coercion to "Int64" that returns never changes a number: cell by
    cell, a null of the numeric column stays a null, an integer stays the
    same integer, and a float is either kept or replaced by an integer that
    compares equal to it; when the float64 column has a value with no equal
    int64 (a fraction) it is returned as it is.  The coercion of a float64
    column that holds the positive infinity does not return: it raises
    [OverflowError]. *)
Theorem Int64_coercion_is_exact s :
  (forall c, coerce_numeric (Some s) DInt64 = Ok c ->
     Forall2 same_number (cells (to_numeric s)) (cells c) /\
     (forall l f, to_numeric s = Float64Col l -> In f l ->
        safe_cast f = None -> c = Float64Col l)) /\
  (forall l, to_numeric s = Float64Col l -> In (S754_infinity false) l ->
     coerce_numeric (Some s) DInt64 = Raise OverflowError).
Proof.
  split.
  - intros c H. apply coerce_numeric_inv in H as (x & [= <-] & H).
    apply astype_Int64_inv in H. split.
    + destruct (to_numeric s) as [l|l|l]; simpl.
      * subst c. simpl. rewrite map_map. simpl.
        induction l; simpl; constructor; auto. reflexivity.
      * destruct H as [->|(zs & E & ->)].
        -- apply (same_number_refl_cells (Float64Col l)).
        -- apply all_some_Forall2 in E. simpl.
           revert zs E. induction l as [|f l IH]; intros zs E;
             inversion E; subst; simpl; constructor.
           ++ now apply safe_cast_same.
           ++ now apply IH.
      * subst c. apply (same_number_refl_cells (NullableInt64Col l)).
    + intros l f E Hin Hf. rewrite E in H.
      destruct H as [->|(zs & Es & ->)]; [reflexivity|].
      rewrite all_some_none in Es; [discriminate|].
      rewrite <- Hf. now apply in_map.
  - intros l E Hin. simpl. rewrite E. now apply astype_Int64_pos_inf.
Qed.

(** ** The shape of the batches *)

Lemma astype_str_length s : List.length (astype_str s) = series_len s.
Proof. destruct s as [[l|l|l]|l]; simpl; apply length_map. Qed.

Lemma lowered_length s :
  List.length (str_method lower (astype_str s)) = series_len s.
Proof. unfold str_method. now rewrite length_map, astype_str_length. Qed.

Lemma null_negative_num_len c : numcol_len (null_negative_num c) = numcol_len c.
Proof.
  destruct c as [l|l|l]; simpl; rewrite ?length_map; try reflexivity.
  destruct (existsb _ l); simpl; now rewrite ?length_map.
Qed.

Lemma fillna_zero_len c : numcol_len (fillna_zero c) = numcol_len c.
Proof. destruct c; simpl; now rewrite ?length_map. Qed.

Lemma astype_int_length c labels :
  astype_int c = Ok labels -> List.length labels = numcol_len c.
Proof.
  destruct c as [l|l|l]; simpl.
  - intros H. now injection H as <-.
  - destruct (forallb _ _); [|discriminate]. intros H. injection H as <-.
    apply length_map.
  - destruct (all_some l) as [zs|] eqn:E; [|discriminate].
    intros H. injection H as <-. now apply all_some_length.
Qed.

Lemma get_or_len df c default :
  wf_frame df -> series_len default = index df ->
  series_len (get_or df c default) = index df.
Proof.
  intros Hwf Hd. unfold get_or. destruct (get df c) as [s|] eqn:E;
    [eapply wf_frame_get; eassumption | exact Hd].
Qed.

Lemma unified_labels_length df labels :
  wf_frame df -> unified_labels df = Ok labels ->
  List.length labels = index df.
Proof.
  intros Hwf. unfold unified_labels.
  destruct (get df "label") as [s|] eqn:E.
  - intros H. apply astype_int_length in H.
    rewrite H, fillna_zero_len, to_numeric_len.
    eapply wf_frame_get; eassumption.
  - intros H. injection H as <-. apply repeat_length.
Qed.

Lemma normalized_categories_len df labels :
  wf_frame df -> List.length labels = index df ->
  series_len (normalize_attack_cat (raw_categories df labels)) = index df.
Proof.
  intros Hwf Hl. rewrite normalize_attack_cat_cells. simpl.
  rewrite length_map, astype_str_length. unfold raw_categories.
  destruct (get df "attack_cat") as [s|] eqn:E.
  - eapply wf_frame_get; eassumption.
  - simpl. unfold np_where. now rewrite !length_map.
Qed.

Lemma wf_assign n c v cols :
  series_len v = n ->
  Forall (fun kv => series_len (snd kv) = n) cols ->
  Forall (fun kv => series_len (snd kv) = n) (assign c v cols).
Proof.
  intros Hv. induction 1 as [|[k w] r Hk Hr IH]; simpl.
  - now repeat constructor.
  - destruct (String.eqb k c); constructor; auto.
Qed.

Lemma wf_setitem df c v :
  wf_frame df -> series_len v = index df -> wf_frame (setitem df c v).
Proof. intros Hwf Hv. unfold wf_frame, setitem. simpl. now apply wf_assign. Qed.

Lemma wf_unified_input df labels :
  wf_frame df -> List.length labels = index df ->
  wf_frame (unified_input df labels).
Proof.
  intros Hwf Hl. unfold unified_input.
  apply wf_setitem.
  - apply wf_setitem; assumption.
  - cbn [setitem index]. now apply normalized_categories_len.
Qed.

Lemma coerced_len df c d col :
  wf_frame df -> coerce_numeric (get df c) d = Ok col ->
  numcol_len col = index df.
Proof.
  intros Hwf H. rewrite <- cells_length. eapply coerced_cells_length; eassumption.
Qed.

Lemma totals_len a b n :
  numcol_len a = n -> numcol_len b = n -> numcol_len (totals a b) = n.
Proof.
  intros Ha Hb. unfold totals. simpl. rewrite !filled_float_cells.
  rewrite zip_with_length; rewrite !length_map, !cells_length; congruence.
Qed.

(** X3.  The mapper returns the 18 columns of [STANDARD_COLS], in that
    order, over the index of its input; when every column of the input has
    one cell for each row, so has every column of the output, and so has
    the input as the mapper leaves it: no row is dropped or made. *)
Theorem mapper_output_shape df mapped df2 :
  map_unsw_to_standard df = Ok (mapped, df2) ->
  map fst (columns mapped) = STANDARD_COLS /\
  index mapped = index df /\
  index df2 = index df /\
  (wf_frame df -> wf_frame mapped /\ wf_frame df2).
Proof.
  intros H. apply map_unsw_to_standard_inv in H.
  destruct H as (ts & sp & dp & du & bo & bi & po & pi & labels & H).
  destruct H as (H1 & H2 & H3 & H4 & H5 & H6 & H7 & H8 & Hl & -> & _ & ->).
  split; [reflexivity|]. split; [reflexivity|]. split; [reflexivity|].
  intros Hwf.
  pose proof (unified_labels_length df labels Hwf Hl) as Ll.
  split; [|now apply wf_unified_input].
  pose proof (coerced_len df _ _ _ Hwf H1). pose proof (coerced_len df _ _ _ Hwf H2).
  pose proof (coerced_len df _ _ _ Hwf H3). pose proof (coerced_len df _ _ _ Hwf H4).
  pose proof (coerced_len df _ _ _ Hwf H5). pose proof (coerced_len df _ _ _ Hwf H6).
  pose proof (coerced_len df _ _ _ Hwf H7). pose proof (coerced_len df _ _ _ Hwf H8).
  unfold wf_frame, mapped_batch, standard_batch. cbn [index columns].
  repeat constructor; cbn [snd series_len];
    rewrite ?null_negative_num_len, ?lowered_length;
    try assumption;
    try (apply get_or_len; [assumption | apply repeat_length]);
    try (apply totals_len; assumption);
    try (now apply normalized_categories_len);
    apply repeat_length.
Qed.

(** ** When the mapper succeeds *)

Lemma unify_label_attack_ok df labels :
  unified_labels df = Ok labels ->
  unify_label_attack df = Ok (unified_input df labels).
Proof.
  unfold unified_labels, unify_label_attack. intros ->. cbn [bind].
  rewrite get_setitem_neq by discriminate.
  unfold unified_input, raw_categories, getitem.
  destruct (get df "attack_cat") as [s|] eqn:E.
  - rewrite get_setitem_neq, E by discriminate. reflexivity.
  - rewrite get_setitem_eq. cbn [bind]. unfold setitem. cbn [index columns].
    now rewrite assign_assign.
Qed.

Lemma derive_ok df ts sp dp du bo bi po pi labels :
  coerce_numeric (get df "stime") Dfloat = Ok ts ->
  coerce_numeric (get df "sport") DInt64 = Ok sp ->
  coerce_numeric (get df "dsport") DInt64 = Ok dp ->
  coerce_numeric (get df "dur") Dfloat = Ok du ->
  coerce_numeric (get df "sbytes") DInt64 = Ok bo ->
  coerce_numeric (get df "dbytes") DInt64 = Ok bi ->
  coerce_numeric (get df "spkts") DInt64 = Ok po ->
  coerce_numeric (get df "dpkts") DInt64 = Ok pi ->
  unified_labels df = Ok labels ->
  derive df = Ok (derived_batch df ts sp dp du bo bi po pi labels,
                  unified_input df labels).
Proof.
  intros H1 H2 H3 H4 H5 H6 H7 H8 Hl. unfold derive.
  rewrite H1, H2, H3, H4, H5, H6, H7, H8. cbn [bind].
  rewrite (unify_label_attack_ok df labels Hl). cbn [bind].
  rewrite unified_input_label, unified_input_attack_cat. reflexivity.
Qed.

(** Nothing after the coercions and the cast of the label can fail. *)
Lemma map_unsw_to_standard_ok df ts sp dp du bo bi po pi labels :
  coerce_numeric (get df "stime") Dfloat = Ok ts ->
  coerce_numeric (get df "sport") DInt64 = Ok sp ->
  coerce_numeric (get df "dsport") DInt64 = Ok dp ->
  coerce_numeric (get df "dur") Dfloat = Ok du ->
  coerce_numeric (get df "sbytes") DInt64 = Ok bo ->
  coerce_numeric (get df "dbytes") DInt64 = Ok bi ->
  coerce_numeric (get df "spkts") DInt64 = Ok po ->
  coerce_numeric (get df "dpkts") DInt64 = Ok pi ->
  unified_labels df = Ok labels ->
  map_unsw_to_standard df
  = Ok (mapped_batch df ts sp dp du bo bi po pi labels,
        unified_input df labels).
Proof.
  intros H1 H2 H3 H4 H5 H6 H7 H8 Hl. unfold map_unsw_to_standard.
  rewrite (derive_ok df ts sp dp du bo bi po pi labels) by assumption.
  cbn [bind fst snd]. rewrite sanity_pass_derived. reflexivity.
Qed.

Lemma coerces_all df labels :
  Forall (coerces df) COERCIONS ->
  unified_labels df = Ok labels ->
  exists mapped, map_unsw_to_standard df = Ok (mapped, unified_input df labels).
Proof.
  intros Hc Hl. unfold COERCIONS in Hc.
  repeat match goal with
  | G : Forall _ (_ :: _) |- _ => inversion G; clear G; subst
  end.
  repeat match goal with
  | G : coerces _ _ |- _ => destruct G as (? & G); cbn [fst snd] in G
  end.
  eexists. apply map_unsw_to_standard_ok; eassumption.
Qed.

(** The largest value is one of the values, and no NaN. *)
Lemma nanmax_from_in_list l : forall m,
  F64.is_nan m = false ->
  In (nanmax_from m l) (m :: l) /\ F64.is_nan (nanmax_from m l) = false.
Proof.
  induction l as [|x l IH]; simpl; intros m Hm; [auto|].
  destruct (F64.is_nan x) eqn:Ex.
  - destruct (IH m Hm) as [[E|Hin] Hn]; auto.
  - destruct (SFltb m x).
    + destruct (IH x Ex) as [[E|Hin] Hn]; auto.
    + destruct (IH m Hm) as [[E|Hin] Hn]; auto.
Qed.

Lemma nanmax_in l m :
  nanmax l = Some m -> In m l /\ F64.is_nan m = false.
Proof.
  induction l as [|x l IH]; simpl; [discriminate|].
  destruct (F64.is_nan x) eqn:Ex.
  - intros H. destruct (IH H). auto.
  - intros [= <-]. destruct (nanmax_from_in_list l x Ex) as [[E|Hin] Hn]; auto.
Qed.

(** A column with no infinity and no number beyond int64 is cast, or
    returned as it is. *)
Lemma astype_Int64_castable c :
  castable c = true -> exists r, astype_Int64 c = Ok r.
Proof.
  destruct c as [l|l|l]; simpl; intros H; try (eexists; reflexivity).
  apply negb_true_iff in H.
  assert (P : exists r,
             match all_some (map safe_cast l) with
             | Some zs => Ok (NullableInt64Col zs)
             | None => Ok (Float64Col l)
             end = Ok r).
  { destruct (all_some (map safe_cast l)); eexists; reflexivity. }
  destruct (nanmax l) as [m|] eqn:Em; [|exact P].
  apply nanmax_in in Em as [Hin Hn].
  assert (Hf : F64.is_finite m = true).
  { destruct (F64.is_finite m) eqn:Ef; [reflexivity|].
    assert (X : existsb int_overflows l = true).
    { apply existsb_exists. exists m. split; [exact Hin|].
      unfold int_overflows. now rewrite Hn, Ef. }
    congruence. }
  rewrite Hf, H. simpl. destruct (is_integral m); [exact P|].
  eexists; reflexivity.
Qed.

Lemma coercible_coerces df cd : coercible df cd -> coerces df cd.
Proof.
  intros (s & Hs & H). unfold coerces. rewrite Hs. simpl.
  destruct (snd cd); [eexists; reflexivity|].
  destruct H as [H|H]; [discriminate|]. now apply astype_Int64_castable.
Qed.

(** The coercion raises nothing but the two exceptions. *)
Lemma coerce_numeric_raises s d e :
  coerce_numeric s d = Raise e -> e = TypeError \/ e = OverflowError.
Proof.
  destruct s as [s|]; simpl; [|intros [= <-]; now left].
  destruct d; [discriminate|].
  destruct (to_numeric s) as [l|l|l]; simpl; try discriminate.
  destruct (all_some (map safe_cast l)), (nanmax l) as [m|];
    try discriminate;
    destruct (negb (F64.is_finite m)); try (intros [= <-]; now right);
    destruct (is_integral m); try discriminate;
    destruct (existsb int_overflows l); try discriminate;
    intros [= <-]; now right.
Qed.

(** X4.  The mapper returns a batch exactly when each of the eight
    coercions returns and the label column can be cast to integers:
    nothing else in it can fail.  It returns only if the eight source
    columns are present, and it does return when they are present, the
    six that are coerced to "Int64" hold no infinity and no number beyond
    int64, and the label can be cast.  With one of the eight absent it
    raises [TypeError] or [OverflowError] -- [TypeError] when stime, the
    first to be coerced, is the absent one. *)
Theorem mapper_succeeds_iff df :
  ((exists mapped df2, map_unsw_to_standard df = Ok (mapped, df2)) <->
   (Forall (coerces df) COERCIONS /\
    exists labels, unified_labels df = Ok labels)) /\
  ((exists mapped df2, map_unsw_to_standard df = Ok (mapped, df2)) ->
   Forall (fun c => get df c <> None) COERCED_SOURCES) /\
  (Forall (coercible df) COERCIONS ->
   (exists labels, unified_labels df = Ok labels) ->
   exists mapped df2, map_unsw_to_standard df = Ok (mapped, df2)) /\
  (Exists (fun c => get df c = None) COERCED_SOURCES ->
   exists e, map_unsw_to_standard df = Raise e /\
             (e = TypeError \/ e = OverflowError)) /\
  (get df "stime" = None -> map_unsw_to_standard df = Raise TypeError).
Proof.
  assert (Inv : forall mapped df2,
            map_unsw_to_standard df = Ok (mapped, df2) ->
            Forall (coerces df) COERCIONS /\
            (exists labels, unified_labels df = Ok labels) /\
            Forall (fun c => get df c <> None) COERCED_SOURCES).
  { intros mapped df2 H. apply map_unsw_to_standard_inv in H.
    destruct H as (ts & sp & dp & du & bo & bi & po & pi & labels & H).
    destruct H as (H1 & H2 & H3 & H4 & H5 & H6 & H7 & H8 & Hl & _).
    split; [|split; [eauto|]].
    - unfold COERCIONS, coerces. repeat constructor; cbn [fst snd]; eauto.
    - repeat constructor;
        match goal with
        | |- get df ?c <> None =>
            intros E;
            match goal with
            | G : coerce_numeric (get df c) _ = Ok _ |- _ =>
                rewrite E in G; discriminate
            end
        end. }
  split; [split|split; [|split; [|split]]].
  - intros (mapped & df2 & H). destruct (Inv _ _ H) as (? & ? & _). auto.
  - intros (Hc & labels & Hl).
    destruct (coerces_all df labels Hc Hl) as (mapped & Hm). eauto.
  - intros (mapped & df2 & H). now destruct (Inv _ _ H) as (_ & _ & ?).
  - intros Hc (labels & Hl).
    assert (Hc' : Forall (coerces df) COERCIONS).
    { eapply Forall_impl; [|exact Hc]. intros cd. apply coercible_coerces. }
    destruct (coerces_all df labels Hc' Hl) as (mapped & Hm). eauto.
  - intros H. destruct (map_unsw_to_standard df) as [[mapped df2]|e] eqn:E.
    + exfalso. destruct (Inv _ _ eq_refl) as (_ & _ & Hp).
      rewrite Forall_forall in Hp. apply Exists_exists in H.
      destruct H as (c & Hin & Hc). exact (Hp c Hin Hc).
    + exists e. split; [reflexivity|].
      unfold map_unsw_to_standard, derive in E.
      repeat match type of E with
      | context [coerce_numeric ?s ?d] =>
          let R := fresh "R" in
          destruct (coerce_numeric s d) eqn:R;
          [cbn [bind] in E
          |cbn [bind] in E; injection E as <-;
           eapply coerce_numeric_raises; exact R]
      end.
      exfalso.
      unfold COERCED_SOURCES in H.
      repeat match goal with
      | G : Exists _ (_ :: _) |- _ => inversion G; clear G; subst
      | G : Exists _ [] |- _ => inversion G
      end;
        match goal with
        | G : get df ?c = None |- _ =>
            match goal with
            | R : coerce_numeric (get df c) _ = Ok _ |- _ =>
                rewrite G in R; discriminate
            end
        end.
  - intros H. unfold map_unsw_to_standard, derive. now rewrite H.
Qed.

(** ** Doing it twice *)

Lemma normalize_obj_idem o : normalize_obj (normalize_obj o) = normalize_obj o.
Proof.
  destruct o as [x| |]; simpl; try reflexivity.
  now rewrite normalize_str_idem.
Qed.

(** X5.  The chain that normalizes the attack category is idempotent on
    whole columns: a column that went through it is left as it is by a
    second pass. *)
Theorem normalize_attack_cat_idempotent s :
  normalize_attack_cat (normalize_attack_cat s) = normalize_attack_cat s.
Proof.
  rewrite (normalize_attack_cat_cells s).
  rewrite normalize_attack_cat_cells. f_equal. simpl.
  rewrite !map_map. apply map_ext_in. intros o Ho.
  pose proof (astype_str_strings s) as Hs. rewrite Forall_forall in Hs.
  destruct (Hs o Ho) as (x & ->). simpl. now rewrite normalize_str_idem.
Qed.

Lemma assign_same c v cols : lookup c cols = Some v -> assign c v cols = cols.
Proof.
  induction cols as [|[k w] r IH]; simpl; [discriminate|].
  destruct (String.eqb k c) eqn:E.
  - intros H. now injection H as ->.
  - intros H. now rewrite IH.
Qed.

Lemma setitem_same df c v : get df c = Some v -> setitem df c v = df.
Proof.
  destruct df as [n cols]. unfold get, setitem. simpl.
  intros H. now rewrite assign_same.
Qed.

(** X6.  [unify_label_attack] is idempotent: on a batch it has returned, a
    second call succeeds and returns the very same batch. *)
Theorem unify_label_attack_idempotent df df2 :
  unify_label_attack df = Ok df2 -> unify_label_attack df2 = Ok df2.
Proof.
  intros H. apply unify_label_attack_inv in H. destruct H as (labels & _ & ->).
  pose proof (unified_input_label df labels) as Hl.
  pose proof (unified_input_attack_cat df labels) as Hc.
  unfold getitem in Hl, Hc.
  destruct (get (unified_input df labels) "label") as [sl|] eqn:El;
    [|discriminate].
  destruct (get (unified_input df labels) "attack_cat") as [sc|] eqn:Ec;
    [|discriminate].
  injection Hl as ->. injection Hc as ->.
  rewrite (unify_label_attack_ok (unified_input df labels) labels).
  - f_equal. unfold unified_input at 1, raw_categories.
    rewrite Ec, normalize_attack_cat_idempotent.
    rewrite (setitem_same (unified_input df labels) "label") by exact El.
    now apply setitem_same.
  - unfold unified_labels. rewrite El. reflexivity.
Qed.

(** ** The loop over the seven columns, on any frame *)

Lemma sanity_fold_raise cs e : fold_left sanity_step cs (Raise e) = Raise e.
Proof. induction cs as [|c cs IH]; simpl; [reflexivity | exact IH]. Qed.

Lemma names_assign_present c v cols :
  lookup c cols <> None -> map fst (assign c v cols) = map fst cols.
Proof.
  induction cols as [|[k w] r IH]; simpl; [congruence|].
  destruct (String.eqb k c); simpl; [reflexivity|].
  intros H. now rewrite IH.
Qed.

Lemma sanity_fold_frame cs : forall f f',
  NoDup cs ->
  fold_left sanity_step cs (Ok f) = Ok f' ->
  index f' = index f /\
  map fst (columns f') = map fst (columns f) /\
  (forall c, ~ In c cs -> get f' c = get f c) /\
  (forall c, In c cs ->
     exists s s', get f c = Some s /\ null_negative s = Ok s' /\
                  get f' c = Some s').
Proof.
  clear str_to_num repr_finite cast_overflow glob read_csv.
  induction cs as [|c cs IH]; simpl; intros f f' Hnd H.
  - injection H as <-. repeat split; tauto.
  - inversion Hnd as [|? ? Hc Hnd']; subst.
    unfold getitem in H.
    destruct (get f c) as [s|] eqn:Eg; simpl in H;
      [|now rewrite sanity_fold_raise in H].
    destruct (null_negative s) as [s'|e] eqn:En; simpl in H;
      [|now rewrite sanity_fold_raise in H].
    destruct (IH _ _ Hnd' H) as (Hi & Hn & Hout & Hin).
    split; [exact Hi|]. split.
    { rewrite Hn. simpl. apply names_assign_present. unfold get in Eg.
      congruence. }
    split.
    + intros c' Hc'. rewrite Hout by tauto.
      apply get_setitem_neq. intros ->. tauto.
    + intros c' [<-|Hc'].
      * exists s, s'. split; [exact Eg|]. split; [exact En|].
        rewrite Hout by exact Hc. apply get_setitem_eq.
      * destruct (Hin c' Hc') as (t & t' & Ht & Hn' & Hg).
        exists t, t'. split; [|now split].
        rewrite <- Ht. symmetry. apply get_setitem_neq. intros ->. tauto.
Qed.

(** X7.  On any frame, the loop that removes negatives succeeds only when
    the seven columns are there, and then it keeps the index and the names
    and order of the columns, leaves every column outside the seven as it
    is, and replaces each of the seven by its image under
    [out.loc[out[c] < 0, c] = pd.NA], independently of the others. *)
Theorem sanity_pass_touches_seven_columns f f' :
  sanity_pass f = Ok f' ->
  index f' = index f /\
  map fst (columns f') = map fst (columns f) /\
  (forall c, ~ In c NONNEG_COLS -> get f' c = get f c) /\
  (forall c, In c NONNEG_COLS ->
     exists s s', get f c = Some s /\ null_negative s = Ok s' /\
                  get f' c = Some s').
Proof.
  clear str_to_num repr_finite cast_overflow glob read_csv.
  apply (sanity_fold_frame NONNEG_COLS).
  repeat constructor; simpl; intuition discriminate.
Qed.

(** ** The loops of the driver *)

(** Whatever [process_chunk] keeps, the loops keep. *)
Lemma process_chunks_keep (I : run -> Prop) a :
  (forall st chunk e st', I st -> process_chunk a st chunk = (e, st') -> I st') ->
  forall chunks st e st',
    I st -> process_chunks a st chunks = (e, st') -> I st'.
Proof.
  intros Hstep. induction chunks as [|chunk rest IH]; simpl;
    intros st e st' Hi H.
  - now injection H as <- <-.
  - destruct (process_chunk a st chunk) as [[ex|] st1] eqn:E.
    + injection H as <- <-. eapply Hstep; eassumption.
    + eapply IH; [|exact H]. eapply Hstep; eassumption.
Qed.

Lemma process_files_keep (I : run -> Prop) a :
  (forall st chunk e st', I st -> process_chunk a st chunk = (e, st') -> I st') ->
  forall fps st e st',
    I st -> process_files a st fps = (e, st') -> I st'.
Proof.
  intros Hstep. induction fps as [|fp rest IH]; simpl; intros st e st' Hi H.
  - now injection H as <- <-.
  - assert (Hfile : forall e1 st1, process_file a st fp = (e1, st1) -> I st1).
    { unfold process_file. intros e1 st1.
      destruct (read_csv _ _ _ _) as [chunks err].
      destruct (process_chunks a st chunks) as [[ex|] st2] eqn:E;
        intros H1; injection H1 as <- <-;
        eapply (process_chunks_keep I a Hstep); eassumption. }
    destruct (process_file a st fp) as [[ex|] st1] eqn:E.
    + injection H as <- <-. eapply Hfile; reflexivity.
    + eapply IH; [|exact H]. eapply Hfile; reflexivity.
Qed.

Lemma rows_app c1 c2 : rows (c1 ++ c2) = rows c1 + rows c2.
Proof.
  induction c1 as [|[b|h f] c1 IH]; simpl; [reflexivity | exact IH |].
  rewrite IH. lia.
Qed.

Lemma header_once_app content batch :
  header_once content -> header_once (content ++ [Block false batch]).
Proof.
  intros (first & rest & ->). exists first, (rest ++ [batch]).
  simpl. now rewrite map_app.
Qed.

Lemma process_chunk_write_invariant a w0 st chunk e st' :
  write_invariant a w0 st -> process_chunk a st chunk = (e, st') ->
  write_invariant a w0 st'.
Proof.
  intros Hinv H. apply process_chunk_inv in H.
  destruct H as [[_ ->]|(mapped & df2 & w & _ & Hw & -> & ->)];
    [exact Hinv|].
  apply to_csv_inv in Hw. subst w.
  right. split; [reflexivity|].
  cbn [world files total_rows]. rewrite file_lookup_store.
  eexists. split; [reflexivity|].
  destruct Hinv as [(-> & -> & _) | (-> & content & -> & Hh & ->)].
  - split; [now exists mapped, []|]. simpl. lia.
  - split; [now apply header_once_app|]. rewrite rows_app. simpl. lia.
Qed.

Lemma path_eqb_eq p q : path_eqb p q = true -> p = q.
Proof.
  revert q. induction p as [|a p IH]; intros [|b q]; simpl;
    try discriminate; [reflexivity|].
  intros H. apply andb_prop in H. destruct H as [Ha Hp].
  apply String.eqb_eq in Ha. subst b. f_equal. now apply IH.
Qed.

Lemma file_lookup_store_other p p0 c fs :
  path_eqb p p0 = false ->
  file_lookup p (file_store p0 c fs) = file_lookup p fs.
Proof.
  intros Hne.
  assert (Hp0 : path_eqb p0 p = false).
  { destruct (path_eqb p0 p) eqn:E; [|reflexivity].
    apply path_eqb_eq in E. subst p0. now rewrite path_eqb_refl in Hne. }
  induction fs as [|[q d] r IH]; simpl.
  - now rewrite Hp0.
  - destruct (path_eqb q p0) eqn:E; simpl.
    + apply path_eqb_eq in E. subst q. now rewrite Hp0.
    + now rewrite IH.
Qed.

Lemma process_chunk_frame_invariant a w0 st chunk e st' :
  frame_invariant a w0 st -> process_chunk a st chunk = (e, st') ->
  frame_invariant a w0 st'.
Proof.
  intros Hinv H. apply process_chunk_inv in H.
  destruct H as [[_ ->]|(mapped & df2 & w & _ & Hw & -> & ->)];
    [exact Hinv|].
  apply to_csv_inv in Hw. subst w.
  destruct Hinv as (Hd & Hf). split; [exact Hd|].
  intros p Hp. cbn [world files].
  rewrite file_lookup_store_other by exact Hp. now apply Hf.
Qed.

(** X8.  From a start with nothing written and no row counted, the loops
    end in one of two states, whether the run completes or an exception
    stops it: nothing was written and the file system is untouched, or the
    output file holds the header once, in its first member, and the row
    counter equals the number of rows of the batches in the file. *)
Theorem row_counter_matches_output a w fps e st :
  process_files a {| first_write := true; total_rows := 0; world := w |} fps
  = (e, st) ->
  (first_write st = true /\ total_rows st = 0 /\ world st = w) \/
  (first_write st = false /\
   exists content,
     file_lookup (out a) (files (world st)) = Some content /\
     header_once content /\
     total_rows st = rows content).
Proof.
  apply (process_files_keep (write_invariant a w) a).
  - intros st0 chunk e0 st1. apply process_chunk_write_invariant.
  - left. repeat split.
Qed.

(** X9.  After a run of [main], however it ends, the output file is as the
    run found it (nothing was written), or it holds members of this run
    only: a first one with the header row, then members without it.
    Whatever the file held before the first write is gone. *)
Theorem header_is_written_once a w e w' :
  main a w = (e, w') ->
  forall content,
    file_lookup (out a) (files w') = Some content ->
    file_lookup (out a) (files w) = Some content \/ header_once content.
Proof.
  unfold main. destruct (eligible w a) as [|fp fps].
  - intros H. injection H as <- <-. now left.
  - unfold mkdir. destruct (existsb _ _).
    + intros H. injection H as <- <-. now left.
    + remember {| dirs := _; files := files w |} as w1 eqn:Ew1.
      destruct (process_files a _ (fp :: fps)) as [e1 st] eqn:E.
      intros H. injection H as <- <-.
      apply (process_files_keep (write_invariant a w1) a) in E.
      * intros content Hc.
        destruct E as [(_ & _ & Hw) | (_ & c & E & Hh & _)].
        -- left. now rewrite Hw, Ew1 in Hc.
        -- rewrite E in Hc. injection Hc as <-. now right.
      * intros st0 chunk e0 st1. apply process_chunk_write_invariant.
      * left. repeat split.
Qed.

(** X10.  A run of [main], however it ends, changes no file other than
    the one at the output path and removes no directory: a path that names
    another file than the output path does (both without "." and ".."
    parts, both absolute or both relative, on a file system without links)
    holds after the run what it held before.  An input part is kept, then,
    unless it is the output file itself. *)
Theorem only_the_output_is_written a w e w' :
  main a w = (e, w') ->
  (forall p, distinct_files p (out a) ->
             file_lookup p (files w') = file_lookup p (files w)) /\
  incl (dirs w) (dirs w').
Proof.
  assert (Hne : forall p, distinct_files p (out a) ->
                          path_eqb p (out a) = false).
  { intros p (_ & _ & _ & Hp). destruct (path_eqb p (out a)) eqn:E;
      [|reflexivity]. now apply path_eqb_eq in E. }
  unfold main. destruct (eligible w a) as [|fp fps].
  - intros H. injection H as <- <-. split; [reflexivity | apply incl_refl].
  - unfold mkdir. destruct (existsb _ _).
    + intros H. injection H as <- <-. split; [reflexivity | apply incl_refl].
    + remember {| dirs := _; files := files w |} as w1 eqn:Ew1.
      destruct (process_files a _ (fp :: fps)) as [e1 st] eqn:E.
      intros H. injection H as <- <-.
      apply (process_files_keep (frame_invariant a w1) a) in E.
      * destruct E as (Hd & Hf). rewrite Ew1 in Hd, Hf. cbn [dirs files] in Hd, Hf.
        split; [intros p Hp; apply Hf, Hne, Hp|].
        rewrite Hd. now apply incl_appl, incl_refl.
      * intros st0 chunk e0 st1. apply process_chunk_frame_invariant.
      * split; [reflexivity|]. intros p _. reflexivity.
Qed.

(** ** The cleaning of a chunk *)

Lemma lookup_map_values (g : series -> series) c cols :
  lookup c (map (fun kv => (fst kv, g (snd kv))) cols)
  = option_map g (lookup c cols).
Proof.
  induction cols as [|[k v] r IH]; simpl; [reflexivity|].
  destruct (String.eqb k c); [reflexivity | exact IH].
Qed.

Lemma cleaning_columns chunk :
  replace_inf (clean_text chunk)
  = DataFrame_of (index chunk)
      (map (fun kv => (fst kv, clean_series (snd kv))) (columns chunk)).
Proof.
  unfold replace_inf, clean_text. cbn [index columns]. f_equal.
  rewrite map_map. apply map_ext. intros [k [[l|l|l]|l]]; reflexivity.
Qed.

Lemma get_cleaned chunk c :
  get (replace_inf (clean_text chunk)) c
  = option_map clean_series (get chunk c).
Proof. rewrite cleaning_columns. unfold get. apply lookup_map_values. Qed.

Lemma clean_series_idem s : clean_series (clean_series s) = clean_series s.
Proof.
  destruct s as [[l|l|l]|l]; simpl; try reflexivity.
  - do 2 f_equal. rewrite map_map. apply map_ext. now intros [s|s| |s m e].
  - f_equal. unfold str_method. rewrite !map_map. apply map_ext.
    intros [s| |]; simpl; try reflexivity. now rewrite strip_idem.
Qed.

Lemma clean_series_text s l :
  clean_series s = Obj l -> Forall is_stripped_str l.
Proof.
  destruct s as [[l0|l0|l0]|l0]; simpl; try discriminate.
  intros H. injection H as <-. unfold str_method.
  rewrite map_map. apply Forall_map, Forall_forall. intros o _.
  destruct o as [s| |]; eexists; (split; [reflexivity|]);
    [apply strip_idem | reflexivity | reflexivity].
Qed.

Lemma clean_series_floats s l :
  clean_series s = Num (Float64Col l) ->
  Forall (fun f => is_infinity f = false) l.
Proof.
  destruct s as [[l0|l0|l0]|l0]; simpl; try discriminate.
  intros H. injection H as <-. apply Forall_map, Forall_forall.
  now intros [s|s| |s m e] _.
Qed.

(** X11.  The cleaning the driver applies to a chunk before the mapper
    keeps the index and the names and order of the columns; afterwards
    every cell of an object column is a stripped string (a missing cell
    has become text) and no float64 column holds an infinity; cleaning a
    cleaned chunk again changes nothing. *)
Theorem chunk_cleaning chunk :
  index (replace_inf (clean_text chunk)) = index chunk /\
  map fst (columns (replace_inf (clean_text chunk))) = map fst (columns chunk) /\
  (forall c l, get (replace_inf (clean_text chunk)) c = Some (Obj l) ->
     Forall is_stripped_str l) /\
  (forall c l, get (replace_inf (clean_text chunk)) c = Some (Num (Float64Col l)) ->
     Forall (fun f => is_infinity f = false) l) /\
  replace_inf (clean_text (replace_inf (clean_text chunk)))
  = replace_inf (clean_text chunk).
Proof.
  split; [reflexivity|].
  split; [now rewrite names_replace_inf, names_clean_text|].
  split; [|split].
  - intros c l. rewrite get_cleaned.
    destruct (get chunk c) as [s|]; simpl; [|discriminate].
    intros H. injection H as H. eapply clean_series_text; exact H.
  - intros c l. rewrite get_cleaned.
    destruct (get chunk c) as [s|]; simpl; [|discriminate].
    intros H. injection H as H. eapply clean_series_floats; exact H.
  - rewrite (cleaning_columns (replace_inf (clean_text chunk))).
    rewrite (cleaning_columns chunk). cbn [index columns]. f_equal.
    rewrite map_map. apply map_ext. intros [k v]. simpl.
    now rewrite clean_series_idem.
Qed.

(** ** Cleaned chunks and the mapper *)

Lemma lookup_in c cols : In c (map fst cols) -> lookup c cols <> None.
Proof.
  clear str_to_num repr_finite cast_overflow glob read_csv.
  induction cols as [|[k v] r IH]; simpl; [tauto|].
  destruct (String.eqb k c) eqn:E; [discriminate|].
  intros [->|H]; [|now apply IH].
  now rewrite String.eqb_refl in E.
Qed.

Lemma cleaned_label_casts c :
  exists labels,
    astype_int (fillna_zero (to_numeric (clean_series (Num c)))) = Ok labels.
Proof.
  destruct c as [l|l|l]; simpl.
  - eauto.
  - rewrite (proj2 (forallb_forall _ _)); [eauto|].
    intros f Hf. rewrite !map_map in Hf. apply in_map_iff in Hf.
    destruct Hf as (g & <- & _). now destruct g as [s|s| |s m e].
  - rewrite (all_some_map_Some
               (fun o : option Z => match o with Some z => z | None => 0%Z end)).
    eauto.
Qed.

Lemma to_csv_raises batch p m h w e :
  to_csv batch p m h w = Raise e -> e = OSError.
Proof. unfold to_csv. destruct (_ || _); [now intros [= <-] | discriminate]. Qed.

(** X12.  A chunk read under the header is always mapped once the driver
    has cleaned it, provided its label column is numeric and the six
    columns coerced to "Int64" hold, as numbers, no infinity and no value
    beyond int64: no missing or unparseable value makes the mapper raise,
    and neither does an infinite label, which the cleaning removes.  The
    only exception such a chunk can stop the run with is the [OSError] of
    the write. *)
Theorem cleaned_chunk_is_mapped chunk c :
  map fst (columns chunk) = UNSW_HEADER ->
  get chunk "label" = Some (Num c) ->
  Forall (fun k => forall s, get chunk k = Some s ->
                   castable (to_numeric (clean_series s)) = true)
         INT64_SOURCES ->
  (exists mapped df2,
     map_unsw_to_standard (replace_inf (clean_text chunk)) = Ok (mapped, df2)) /\
  (forall a st, fst (process_chunk a st chunk) = None \/
                fst (process_chunk a st chunk) = Some OSError).
Proof.
  intros Hn Hl Hc.
  assert (Hp : forall k, In k COERCED_SOURCES ->
                 exists s, get chunk k = Some s).
  { intros k Hk.
    assert (Hin : lookup k (columns chunk) <> None).
    { apply lookup_in. rewrite Hn.
      unfold COERCED_SOURCES in Hk. simpl in Hk. simpl.
      repeat (destruct Hk as [<-|Hk]; [tauto|]). destruct Hk. }
    unfold get. destruct (lookup k (columns chunk)) as [s|]; [eauto|].
    congruence. }
  assert (Hcs : Forall (coercible (replace_inf (clean_text chunk))) COERCIONS).
  { rewrite Forall_forall in Hc. unfold COERCIONS.
    repeat constructor; unfold coercible; cbn [fst snd]; rewrite get_cleaned;
      match goal with
      | |- exists s, option_map _ (get chunk ?k) = _ /\ _ =>
          let s := fresh "s" in let Es := fresh "Es" in
          destruct (Hp k) as (s & Es);
          [unfold COERCED_SOURCES; simpl; tauto|];
          rewrite Es; exists (clean_series s); split; [reflexivity|];
          first [ left; reflexivity
                | right; apply (Hc k); [unfold INT64_SOURCES; simpl; tauto
                                       | exact Es] ]
      end. }
  destruct (cleaned_label_casts c) as (labels & Hlc).
  assert (Hu : unified_labels (replace_inf (clean_text chunk)) = Ok labels).
  { unfold unified_labels. rewrite get_cleaned, Hl. exact Hlc. }
  assert (Hcs' : Forall (coerces (replace_inf (clean_text chunk))) COERCIONS).
  { eapply Forall_impl; [|exact Hcs]. intros cd. apply coercible_coerces. }
  destruct (coerces_all _ labels Hcs' Hu) as (mapped & Hm).
  split; [eauto|].
  intros a st. unfold process_chunk. rewrite Hm.
  destruct (to_csv _ _ _ _ _) as [w|e] eqn:Ew; [now left|].
  right. apply to_csv_raises in Ew. now subst e.
Qed.

(** ** The order of the files *)

Lemma ascii_compare_refl a : Ascii.compare a a = Eq.
Proof. unfold Ascii.compare. apply N.compare_refl. Qed.

Lemma ascii_compare_lt_trans a b c :
  Ascii.compare a b = Lt -> Ascii.compare b c = Lt -> Ascii.compare a c = Lt.
Proof.
  unfold Ascii.compare. rewrite !N.compare_lt_iff. apply N.lt_trans.
Qed.

Lemma string_compare_refl s : String.compare s s = Eq.
Proof.
  induction s as [|a s IH]; simpl; [reflexivity|].
  now rewrite ascii_compare_refl.
Qed.

Lemma string_compare_lt_trans s : forall t u,
  String.compare s t = Lt -> String.compare t u = Lt -> String.compare s u = Lt.
Proof.
  induction s as [|a s IH]; intros [|b t] [|c u]; simpl; try discriminate;
    try reflexivity.
  destruct (Ascii.compare a b) eqn:Eab; try discriminate;
    destruct (Ascii.compare b c) eqn:Ebc; try discriminate; intros H1 H2.
  - apply Ascii.compare_eq_iff in Eab, Ebc. subst.
    rewrite ascii_compare_refl. eapply IH; eassumption.
  - apply Ascii.compare_eq_iff in Eab. subst. now rewrite Ebc.
  - apply Ascii.compare_eq_iff in Ebc. subst. now rewrite Eab.
  - now rewrite (ascii_compare_lt_trans a b c).
Qed.

Lemma path_le_trans p : forall q r, path_le p q -> path_le q r -> path_le p r.
Proof.
  unfold path_le.
  induction p as [|a p IH]; intros [|b q] [|c r]; simpl; try discriminate;
    try reflexivity.
  destruct (String.compare a b) eqn:Eab; try discriminate;
    destruct (String.compare b c) eqn:Ebc; try discriminate; intros H1 H2.
  - apply String.compare_eq_iff in Eab, Ebc. subst.
    rewrite string_compare_refl. eapply IH; eassumption.
  - apply String.compare_eq_iff in Eab. subst. now rewrite Ebc.
  - apply String.compare_eq_iff in Ebc. subst. now rewrite Eab.
  - now rewrite (string_compare_lt_trans a b c).
Qed.

Lemma path_le_total p : forall q, path_leb p q = false -> path_le q p.
Proof.
  unfold path_le.
  induction p as [|a p IH]; intros [|b q]; simpl; try discriminate;
    try reflexivity.
  rewrite (String.compare_antisym b a).
  destruct (String.compare a b); simpl; try discriminate;
    [apply IH | reflexivity].
Qed.

Lemma insert_sorted_perm p l : Permutation (insert_sorted p l) (p :: l).
Proof.
  induction l as [|q r IH]; simpl; [reflexivity|].
  destruct (path_leb p q); [reflexivity|].
  rewrite IH. apply perm_swap.
Qed.

Lemma sorted_perm l : Permutation (sorted l) l.
Proof.
  induction l as [|p l IH]; simpl; [reflexivity|].
  rewrite insert_sorted_perm. now constructor.
Qed.

Lemma insert_sorted_sorted p l :
  StronglySorted path_le l -> StronglySorted path_le (insert_sorted p l).
Proof.
  induction 1 as [|q r Hr IH Hq]; simpl; [repeat constructor|].
  destruct (path_leb p q) eqn:E.
  - constructor; [now constructor|]. constructor; [exact E|].
    eapply Forall_impl; [|exact Hq]. intros x Hx.
    eapply path_le_trans; [exact E | exact Hx].
  - constructor; [exact IH|].
    apply Forall_forall. intros x Hx.
    apply (Permutation_in _ (insert_sorted_perm p r)) in Hx.
    destruct Hx as [<-|Hx]; [now apply path_le_total|].
    rewrite Forall_forall in Hq. now apply Hq.
Qed.

Lemma sorted_sorted l : StronglySorted path_le (sorted l).
Proof.
  induction l as [|p l IH]; simpl; [constructor|].
  now apply insert_sorted_sorted.
Qed.

Lemma filter_sorted (f : path -> bool) l :
  StronglySorted path_le l -> StronglySorted path_le (filter f l).
Proof.
  induction 1 as [|q r Hr IH Hq]; simpl; [constructor|].
  destruct (f q); [|exact IH]. constructor; [exact IH|].
  apply Forall_forall. intros x Hx. apply filter_In in Hx.
  rewrite Forall_forall in Hq. now apply Hq.
Qed.

Lemma filter_perm (f : path -> bool) l l' :
  Permutation l l' -> Permutation (filter f l) (filter f l').
Proof.
  induction 1 as [|x l l' _ IH|x y l|l l' l'' _ IH1 _ IH2]; simpl.
  - constructor.
  - destruct (f x); [now constructor | exact IH].
  - destruct (f x), (f y); try reflexivity. apply perm_swap.
  - now rewrite IH1.
Qed.

(** X13.  The files the run reads are the matches of the pattern whose
    name does not mention "feature" in any letter case, each as often as
    the pattern found it, and they are read in ascending order of their
    paths. *)
Theorem eligible_files_in_order w a :
  Permutation (eligible w a)
              (filter keeps (glob w (input_dir a) (pattern a))) /\
  StronglySorted path_le (eligible w a) /\
  (forall f, In f (eligible w a) <->
             In f (glob w (input_dir a) (pattern a)) /\
             contains "feature" (lower (name f)) = false).
Proof.
  unfold eligible. fold keeps.
  split; [apply filter_perm, sorted_perm|].
  split; [apply filter_sorted, sorted_sorted|].
  intros f. rewrite filter_In. unfold keeps. rewrite negb_true_iff.
  split; intros [Hin Hf]; (split; [|exact Hf]).
  - now apply (Permutation_in _ (sorted_perm _)).
  - now apply (Permutation_in _ (Permutation_sym (sorted_perm _))).
Qed.

(** ** Columns the mapper passes on *)

(** X14.  The mapper passes the address and service columns on as they
    are, without trimming or lower-casing (its defaults standing in for an
    absent column), tags every row with the constant "UNSW-NB15", and keeps
    the coerced timestamp and ports out of the sanity pass: a negative
    port or timestamp reaches the output. *)
Theorem mapper_passes_columns_on df mapped df2 :
  map_unsw_to_standard df = Ok (mapped, df2) ->
  get mapped "src_ip" = Some (get_or df "srcip" (Obj (repeat ONA (index df)))) /\
  get mapped "dst_ip" = Some (get_or df "dstip" (Obj (repeat ONA (index df)))) /\
  get mapped "service"
  = Some (get_or df "service" (Obj (repeat (OStr "unknown") (index df)))) /\
  get mapped "dataset" = Some (Obj (repeat (OStr "UNSW-NB15") (index df))) /\
  (exists timestamp src_port dst_port,
     coerce_numeric (get df "stime") Dfloat = Ok timestamp /\
     coerce_numeric (get df "sport") DInt64 = Ok src_port /\
     coerce_numeric (get df "dsport") DInt64 = Ok dst_port /\
     get mapped "timestamp" = Some (Num timestamp) /\
     get mapped "src_port" = Some (Num src_port) /\
     get mapped "dst_port" = Some (Num dst_port)).
Proof.
  intros H. apply map_unsw_to_standard_inv in H.
  destruct H as (ts & sp & dp & du & bo & bi & po & pi & labels & H).
  destruct H as (H1 & H2 & H3 & _ & _ & _ & _ & _ & _ & _ & _ & ->).
  do 4 (split; [reflexivity|]).
  exists ts, sp, dp. repeat (split; [assumption|]). repeat split.
Qed.

(** ** Rows in, rows out *)

Lemma process_chunk_rows a st chunk st' :
  process_chunk a st chunk = (None, st') ->
  total_rows st' = total_rows st + index chunk.
Proof.
  intros H. apply process_chunk_inv in H.
  destruct H as [[H _]|(mapped & df2 & w & Hm & _ & _ & ->)];
    [congruence|].
  cbn [total_rows].
  apply map_unsw_to_standard_inv in Hm.
  destruct Hm as (ts & sp & dp & du & bo & bi & po & pi & labels & Hm).
  destruct Hm as (_ & _ & _ & _ & _ & _ & _ & _ & _ & _ & _ & ->).
  reflexivity.
Qed.

(** X15.  When the chunks of a file are all processed without an
    exception, the row counter has grown by exactly the number of rows of
    the chunks read: every input row is counted once, none is dropped or
    added on the way to the output. *)
Theorem rows_are_conserved a chunks : forall st st',
  process_chunks a st chunks = (None, st') ->
  total_rows st' = total_rows st + list_sum (map index chunks).
Proof.
  induction chunks as [|chunk rest IH]; simpl; intros st st' H.
  - injection H as <-. lia.
  - destruct (process_chunk a st chunk) as [[ex|] st1] eqn:E; [discriminate|].
    apply process_chunk_rows in E. rewrite (IH _ _ H), E. lia.
Qed.

End Pipeline.

(** ** The sample environment at work *)

(** The mapper on the scenario, with the sample parser. *)
Lemma scenario_run :
  map_unsw_to_standard parse_integer repr_sample cast_x86 scenario
  = Ok (scenario_mapped, unified_input repr_sample scenario [0%Z]).
Proof. vm_compute. reflexivity. Qed.

Lemma read_csv_sample_names w p names n :
  Forall (fun chunk => map fst (columns chunk) = names)
         (fst (read_csv_sample w p names n)).
Proof.
  unfold read_csv_sample.
  destruct (file_lookup p (files w)) as [[|[b|h f] [|]]|]; simpl;
    constructor; auto.
  simpl. rewrite map_map. apply map_id.
Qed.

(** C1: the claimed total of 500.0 is not what the mapper returns for the
    scenario row; the column holds 480.0. *)
Lemma scenario_total_is_480 :
  exists mapped df2,
    map_unsw_to_standard parse_integer repr_sample cast_x86 scenario
    = Ok (mapped, df2) /\
    get mapped "flow_bytes_total" = Some (Num (Float64Col [F64.of_Z 480])) /\
    F64.eqb (F64.of_Z 480) (F64.of_Z 500) = false.
Proof.
  exists scenario_mapped, (unified_input repr_sample scenario [0%Z]).
  split; [exact scenario_run|]. split; reflexivity.
Qed.

(** C2: the totals hold at the scenario row. *)
Lemma totals_consistency_witness :
  int64_frame scenario = true /\
  exists pre,
    derive parse_integer repr_sample cast_x86 scenario
    = Ok (pre, unified_input repr_sample scenario [0%Z]) /\
    get pre "flow_bytes_total" = Some (Num (Float64Col [F64.of_Z 480])) /\
    F64.is_nan (F64.of_Z 480) = false.
Proof.
  split; [reflexivity|].
  destruct (totals_consistency parse_integer repr_sample cast_x86
              scenario scenario_mapped (unified_input repr_sample scenario [0%Z])
              eq_refl scenario_run)
    as (pre & bo & bi & po & pi & Hd & _).
  exists pre. split; [exact Hd|].
  vm_compute in Hd. injection Hd as <-. split; reflexivity.
Defined.

(** The byte counters +inf and -inf, whose sum would be NaN, do not reach
    the totals: the mapper stops at the cast of the first. *)
Lemma infinite_bytes_raise :
  map_unsw_to_standard parse_integer repr_sample cast_x86 infinite_bytes
  = Raise OverflowError.
Proof. vm_compute. reflexivity. Qed.

(** C4: the labels of the scenario row are integers. *)
Lemma label_is_integer_witness :
  int64_frame scenario = true /\
  exists labels,
    get scenario_mapped "label" = Some (Num (Int64Col labels)) /\
    labels = repeat 0%Z (index scenario).
Proof.
  split; [reflexivity|].
  destruct (label_is_integer parse_integer repr_sample cast_x86
              scenario scenario_mapped (unified_input repr_sample scenario [0%Z])
              eq_refl scenario_run)
    as (labels & Hl & _ & _ & Hnone & _).
  exists labels. split; [exact Hl|]. apply Hnone. reflexivity.
Defined.

(** C4: a raw label of 5 is neither 0 nor 1 in the output. *)
Lemma label_five_stays_five :
  exists mapped df2,
    map_unsw_to_standard parse_integer repr_sample cast_x86 label_five
    = Ok (mapped, df2) /\
    get mapped "label" = Some (Num (Int64Col [5%Z])).
Proof.
  do 2 eexists. split; [vm_compute; reflexivity|]. reflexivity.
Qed.

(** C5: the category of the scenario row is normalized. *)
Lemma attack_cat_is_normalized_witness :
  exists cats,
    get scenario_mapped "attack_cat" = Some (Obj cats) /\
    cats = map normalize_obj [OStr "Normal"].
Proof.
  destruct (attack_cat_is_normalized parse_integer repr_sample cast_x86
              scenario scenario_mapped (unified_input repr_sample scenario [0%Z])
              scenario_run)
    as (cats & Hc & _ & Hraw & _).
  exists cats. split; [exact Hc|].
  apply (Hraw (Obj [OStr "Normal"])). reflexivity.
Defined.

(** C5: a category of three spaces gives the empty string. *)
Lemma blank_category_is_empty :
  exists mapped df2,
    map_unsw_to_standard parse_integer repr_sample cast_x86 blank_category
    = Ok (mapped, df2) /\
    get mapped "attack_cat" = Some (Obj [OStr ""]).
Proof.
  do 2 eexists. split; [vm_compute; reflexivity|]. reflexivity.
Qed.

(** C6: the protocol and state of the scenario row are lower-cased. *)
Lemma proto_state_are_strings_witness :
  exists protos states,
    get scenario_mapped "proto" = Some (Obj protos) /\
    get scenario_mapped "state" = Some (Obj states) /\
    protos = map lower_obj [OStr "TCP"] /\
    states = map lower_obj [OStr "FIN"].
Proof.
  destruct (proto_state_are_strings parse_integer repr_sample cast_x86
              scenario scenario_mapped (unified_input repr_sample scenario [0%Z])
              scenario_run)
    as (protos & states & Hp & Hs & _ & _ & Hpl & Hsl & _).
  exists protos, states.
  split; [exact Hp|]. split; [exact Hs|].
  split; [apply Hpl | apply Hsl]; reflexivity.
Defined.

(** C6: a missing protocol or state is the string "nan" in the output, not
    a null. *)
Lemma missing_proto_is_text :
  exists mapped df2,
    map_unsw_to_standard parse_integer repr_sample cast_x86 missing_proto
    = Ok (mapped, df2) /\
    get missing_proto "proto" = Some (Obj [ONaN]) /\
    get missing_proto "state" = Some (Obj [ONaN]) /\
    get mapped "proto" = Some (Obj [OStr "nan"]) /\
    get mapped "state" = Some (Obj [OStr "nan"]).
Proof.
  do 2 eexists. split; [vm_compute; reflexivity|]. repeat split.
Qed.

(** C7: the sanity pass on the scenario row nulls the negative dbytes. *)
Lemma sanity_pass_non_negative_witness :
  exists pre mapped,
    derive parse_integer repr_sample cast_x86 scenario
    = Ok (pre, unified_input repr_sample scenario [0%Z]) /\
    sanity_pass pre = Ok mapped /\
    get pre "bytes_in" = Some (Num (NullableInt64Col [Some (-20)%Z])) /\
    get mapped "bytes_in" = Some (Num (NullableInt64Col [None])).
Proof.
  assert (Hd : exists pre,
             derive parse_integer repr_sample cast_x86 scenario
             = Ok (pre, unified_input repr_sample scenario [0%Z]) /\
             get pre "bytes_in" = Some (Num (NullableInt64Col [Some (-20)%Z]))).
  { eexists. split; [vm_compute; reflexivity|]. reflexivity. }
  destruct Hd as (pre & Hd & Hb).
  destruct (sanity_pass_non_negative parse_integer repr_sample cast_x86
              scenario pre (unified_input repr_sample scenario [0%Z]) Hd)
    as (mapped & Hs & Hm & _).
  exists pre, mapped. repeat split; auto.
  rewrite scenario_run in Hm. injection Hm as <-. reflexivity.
Defined.

(** C8: a directory that holds the feature list only. *)
Lemma no_eligible_file_fails_fast_witness :
  main parse_integer repr_sample cast_x86 glob_sample read_csv_sample
       sample_args features_only
  = (Some (SystemExit "No UNSW-NB15 CSV files found in data"), features_only).
Proof.
  apply (no_eligible_file_fails_fast parse_integer repr_sample cast_x86
           glob_sample read_csv_sample sample_args features_only).
  reflexivity.
Defined.

(** C9: the scenario batch keeps its counters through the mapper. *)
Lemma mapper_overwrites_label_and_category_witness :
  get (unified_input repr_sample scenario [0%Z]) "sbytes" = get scenario "sbytes" /\
  get (unified_input repr_sample scenario [0%Z]) "label" = get scenario_mapped "label".
Proof.
  destruct (mapper_overwrites_label_and_category parse_integer repr_sample
              cast_x86 scenario scenario_mapped (unified_input repr_sample scenario [0%Z])
              scenario_run)
    as (_ & Hkeep & Hl & _).
  split; [apply Hkeep; discriminate | exact Hl].
Defined.

(** C9: the mapper changes the batch it is given: the scenario's category
    "Normal" is overwritten with "benign" and a label column is added. *)
Lemma mapper_changes_its_input :
  exists mapped df2,
    map_unsw_to_standard parse_integer repr_sample cast_x86 scenario
    = Ok (mapped, df2) /\
    get scenario "attack_cat" = Some (Obj [OStr "Normal"]) /\
    get df2 "attack_cat" = Some (Obj [OStr "benign"]) /\
    get scenario "label" = None /\
    get df2 "label" = Some (Num (Int64Col [0%Z])).
Proof.
  do 2 eexists. split; [exact scenario_run|]. repeat split.
Qed.

(** C10: a run over a directory with one part writes "unknown". *)
Lemma service_is_unknown_witness :
  exists content,
    file_lookup (out sample_args)
      (files (snd (main parse_integer repr_sample cast_x86 glob_sample
                        read_csv_sample sample_args one_part)))
    = Some content /\
    Forall service_unknown content.
Proof.
  destruct (main parse_integer repr_sample cast_x86 glob_sample
                 read_csv_sample sample_args one_part) as [e w'] eqn:E.
  pose proof (service_is_unknown parse_integer repr_sample cast_x86
                glob_sample read_csv_sample sample_args one_part e w'
                read_csv_sample_names E) as H.
  vm_compute in E. injection E as <- <-.
  eexists. split; [reflexivity|].
  destruct (H _ eq_refl) as [H0|H0]; [discriminate | exact H0].
Defined.

(** ** The sample environment and the further properties *)


(** X2: a float64 column [2.0, NaN] becomes the "Int64" column [2, <NA>];
    the column of the infinite byte counter is not cast. *)
Lemma Int64_coercion_is_exact_witness :
  coerce_numeric parse_integer cast_x86 (Some two_and_missing) DInt64
  = Ok (NullableInt64Col [Some 2%Z; None]) /\
  Forall2 same_number
    (cells (to_numeric parse_integer two_and_missing))
    (cells (NullableInt64Col [Some 2%Z; None])) /\
  coerce_numeric parse_integer cast_x86 (get infinite_bytes "sbytes") DInt64
  = Raise OverflowError.
Proof.
  split; [vm_compute; reflexivity|]. split.
  - apply (Int64_coercion_is_exact parse_integer cast_x86 two_and_missing).
    vm_compute. reflexivity.
  - apply (proj2 (Int64_coercion_is_exact parse_integer cast_x86
                    (Num (Float64Col [S754_infinity false])))
             [S754_infinity false]); [reflexivity | now left].
Defined.

Lemma scenario_wf : wf_frame scenario.
Proof. repeat constructor. Qed.

(** X3: the shape of the mapped scenario. *)
Lemma mapper_output_shape_witness :
  map fst (columns scenario_mapped) = STANDARD_COLS /\
  wf_frame scenario_mapped.
Proof.
  destruct (mapper_output_shape parse_integer repr_sample cast_x86
              scenario scenario_mapped (unified_input repr_sample scenario [0%Z])
              scenario_run)
    as (Hn & _ & _ & Hwf).
  split; [exact Hn | exact (proj1 (Hwf scenario_wf))].
Defined.

(** X4: the scenario has the eight source columns; a batch without
    columns is refused. *)
Lemma mapper_succeeds_iff_witness :
  Forall (fun c => get scenario c <> None) COERCED_SOURCES /\
  map_unsw_to_standard parse_integer repr_sample cast_x86 (DataFrame_of 1 [])
  = Raise TypeError.
Proof.
  split.
  - apply (proj1 (proj2 (mapper_succeeds_iff parse_integer repr_sample
                           cast_x86 scenario))).
    do 2 eexists. exact scenario_run.
  - apply (proj2 (proj2 (proj2 (proj2
             (mapper_succeeds_iff parse_integer repr_sample cast_x86
                (DataFrame_of 1 [])))))).
    reflexivity.
Defined.

(** X6: unifying the unified scenario again. *)
Lemma unify_label_attack_idempotent_witness :
  unify_label_attack parse_integer repr_sample cast_x86
    (unified_input repr_sample scenario [0%Z])
  = Ok (unified_input repr_sample scenario [0%Z]).
Proof.
  apply (unify_label_attack_idempotent parse_integer repr_sample cast_x86
           scenario).
  vm_compute. reflexivity.
Defined.

(** X7: the loop on the scenario batch before its negative is removed. *)
Lemma sanity_pass_touches_seven_columns_witness :
  sanity_pass (setitem scenario_mapped "bytes_in"
                 (Num (NullableInt64Col [Some (-20)%Z])))
  = Ok scenario_mapped /\
  get scenario_mapped "proto"
  = get (setitem scenario_mapped "bytes_in"
           (Num (NullableInt64Col [Some (-20)%Z]))) "proto".
Proof.
  assert (H : sanity_pass (setitem scenario_mapped "bytes_in"
                             (Num (NullableInt64Col [Some (-20)%Z])))
              = Ok scenario_mapped)
    by (vm_compute; reflexivity).
  split; [exact H|].
  destruct (sanity_pass_touches_seven_columns _ scenario_mapped H)
    as (_ & _ & Hout & _).
  apply Hout. simpl. intuition discriminate.
Defined.

(** X8: the loops over the one part of the sample directory. *)
Lemma row_counter_matches_output_witness :
  exists st content,
    process_files parse_integer repr_sample cast_x86 read_csv_sample
      sample_args
      {| first_write := true; total_rows := 0; world := prepared |}
      [["data"; "UNSW-NB15_1.csv"]]
    = (None, st) /\
    file_lookup (out sample_args) (files (world st)) = Some content /\
    total_rows st = rows content /\
    total_rows st = 1.
Proof.
  destruct (process_files parse_integer repr_sample cast_x86 read_csv_sample
              sample_args
              {| first_write := true; total_rows := 0; world := prepared |}
              [["data"; "UNSW-NB15_1.csv"]]) as [e st] eqn:E.
  pose proof (row_counter_matches_output parse_integer repr_sample cast_x86
                read_csv_sample sample_args prepared _ e st E) as H.
  vm_compute in E. injection E as <- <-.
  destruct H as [(H & _) | (_ & content & Hc & _ & Hr)]; [discriminate|].
  do 2 eexists. split; [reflexivity|]. split; [exact Hc|].
  split; [exact Hr | reflexivity].
Defined.

(** X9: the output of the run over the sample directory. *)
Lemma header_is_written_once_witness :
  exists content,
    file_lookup (out sample_args)
      (files (snd (main parse_integer repr_sample cast_x86 glob_sample
                        read_csv_sample sample_args one_part)))
    = Some content /\
    header_once content.
Proof.
  destruct (main parse_integer repr_sample cast_x86 glob_sample
                 read_csv_sample sample_args one_part) as [e w'] eqn:E.
  pose proof (header_is_written_once parse_integer repr_sample cast_x86
                glob_sample read_csv_sample sample_args one_part e w' E) as H.
  vm_compute in E. injection E as <- <-.
  eexists. split; [reflexivity|].
  destruct (H _ eq_refl) as [H0|H0]; [discriminate | exact H0].
Defined.

(** X10: the part the run read is as it was. *)
Lemma only_the_output_is_written_witness :
  file_lookup ["data"; "UNSW-NB15_1.csv"]
    (files (snd (main parse_integer repr_sample cast_x86 glob_sample
                      read_csv_sample sample_args one_part)))
  = Some [Raw "0"].
Proof.
  destruct (main parse_integer repr_sample cast_x86 glob_sample
                 read_csv_sample sample_args one_part) as [e w'] eqn:E.
  destruct (only_the_output_is_written parse_integer repr_sample cast_x86
              glob_sample read_csv_sample sample_args one_part e w' E)
    as (H & _).
  simpl snd. rewrite H; [reflexivity|].
  repeat split. discriminate.
Defined.

(** X12: a chunk of text fields with an infinite label is cleaned and
    mapped. *)
Lemma cleaned_chunk_is_mapped_witness :
  exists mapped df2,
    map_unsw_to_standard parse_integer repr_sample cast_x86
      (replace_inf (clean_text repr_sample text_chunk))
    = Ok (mapped, df2).
Proof.
  apply (cleaned_chunk_is_mapped parse_integer repr_sample cast_x86
           text_chunk (Float64Col [S754_infinity false])).
  - reflexivity.
  - reflexivity.
  - repeat constructor; intros s E; vm_compute in E; injection E as <-;
      reflexivity.
Defined.

(** X14: the addresses of the scenario pass through. *)
Lemma mapper_passes_columns_on_witness :
  get scenario_mapped "src_ip" = Some (Obj [OStr "10.0.0.1"]) /\
  get scenario_mapped "dst_ip" = Some (Obj [OStr "10.0.0.2"]).
Proof.
  destruct (mapper_passes_columns_on parse_integer repr_sample cast_x86
              scenario scenario_mapped (unified_input repr_sample scenario [0%Z])
              scenario_run)
    as (Hs & Hd & _).
  split; [exact Hs | exact Hd].
Defined.

(** X15: two chunks of one row each count two rows. *)
Lemma rows_are_conserved_witness :
  total_rows
    (snd (process_chunks parse_integer repr_sample cast_x86 sample_args
            {| first_write := true; total_rows := 0; world := prepared |}
            [infinite_chunk; infinite_chunk]))
  = 2.
Proof.
  destruct (process_chunks parse_integer repr_sample cast_x86 sample_args
              {| first_write := true; total_rows := 0; world := prepared |}
              [infinite_chunk; infinite_chunk]) as [e st] eqn:E.
  assert (He : e = None) by (vm_compute in E; now injection E as <- _).
  subst e.
  apply (rows_are_conserved parse_integer repr_sample cast_x86) in E.
  exact E.
Defined.
